(** * pmt2bmp: the PMT decoder and its conversion to BMP pixel data

    A shallow embedding of [pmt2bmp.c].  Buffers are lists of integer cells
    addressed by an offset from the start of the buffer, pointers are
    offsets, and every access outside a buffer is reported as [Undef]
    (undefined behaviour in C) instead of being given a meaning. *)

From Stdlib Require Import ZArith Lia.
From stdpp Require Import base option list.

Local Open Scope Z_scope.

(** ** Format constants (the [#define]s of the source) *)

Definition PMT_DECODED_ROW_PLANE_BYTES : Z := 105.
Definition PMT_PIXELS_PER_ROW : Z := PMT_DECODED_ROW_PLANE_BYTES * 8.
Definition PMT_PLANES : Z := 4.
Definition PMT_DECODED_ROW_BYTES : Z := PMT_DECODED_ROW_PLANE_BYTES * PMT_PLANES.
Definition BMP_ROW_BYTES : Z := PMT_DECODED_ROW_BYTES.
Definition PMT_ROWS_PER_GROUP : Z := 148.
Definition PMT_DECODED_GROUP_BYTES : Z := PMT_DECODED_ROW_BYTES * PMT_ROWS_PER_GROUP.
Definition BMP_GROUP_BYTES : Z := BMP_ROW_BYTES * PMT_ROWS_PER_GROUP.
Definition PMT_GROUPS : Z := 6.
Definition BMP_PIXEL_ARRAY_SIZE : Z := BMP_GROUP_BYTES * PMT_GROUPS.

(** ** Machine integers and memory *)

(** Conversion to [uint8_t]. *)
Definition u8 (x : Z) : Z := x mod 256.

(** The failures the program reports, one per diagnostic it prints.  In C
    every one of them is the return value [-1] (or [NULL]). *)
Inductive error : Type :=
  | TruncatedInput   (* "failed to read size for the group", "failed to read .. group data bytes",
                        "unexpected color table bytes read" *)
  | BufferTooSmall   (* "group data .. does not fit in buffer" *)
  | InputOverrun     (* "attempted to read past end of input data" *)
  | OutputOverrun    (* "attempted to write past end of output buffer" *)
  | SizeMismatch     (* "decoded .. bytes, expected .." *)
  | OpenFailure.     (* "failed to open file .. for reading" *)

(** What a call does: it returns a value, reports a failure, or touches
    memory outside one of its buffers.  [OutOfFuel] is not a behaviour of
    the program: it marks a loop of the model that was given too little
    fuel, and is shown below never to occur. *)
Inductive result (A : Type) : Type :=
  | Ok (a : A)
  | Err (e : error)
  | Undef
  | OutOfFuel.
Arguments Ok {A} a.
Arguments Err {A} e.
Arguments Undef {A}.
Arguments OutOfFuel {A}.

Definition bind {A B : Type} (r : result A) (f : A -> result B) : result B :=
  match r with
  | Ok a => f a
  | Err e => Err e
  | Undef => Undef
  | OutOfFuel => OutOfFuel
  end.

Notation "'do' x <- r ; k" := (bind r (fun x => k))
  (at level 10, x pattern, r at level 100, k at level 200).

(** The [int] a C caller sees. *)
Definition ret_value (r : result Z) : option Z :=
  match r with
  | Ok n => Some n
  | Err _ => Some (-1)
  | Undef | OutOfFuel => None
  end.

(** [buf[i]] read through a [uint8_t *]. *)
Definition load (buf : list Z) (i : Z) : result Z :=
  if 0 <=? i
  then match buf !! Z.to_nat i with
       | Some b => Ok (u8 b)
       | None => Undef
       end
  else Undef.

(** [buf[i] = v] through a [uint8_t *]. *)
Definition store (buf : list Z) (i : Z) (v : Z) : result (list Z) :=
  if (0 <=? i) && (i <? Z.of_nat (length buf))
  then Ok (<[Z.to_nat i := u8 v]> buf)
  else Undef.

(** [memset(buf + off, v, n)]. *)
Definition memset (buf : list Z) (off : Z) (v : Z) (n : Z) : result (list Z) :=
  if (0 <=? off) && (0 <=? n) && (off + n <=? Z.of_nat (length buf))
  then Ok (take (Z.to_nat off) buf ++ replicate (Z.to_nat n) (u8 v)
             ++ drop (Z.to_nat (off + n)) buf)
  else Undef.

(** [memcpy(dst + doff, src + soff, n)]. *)
Definition memcpy (dst : list Z) (doff : Z) (src : list Z) (soff : Z) (n : Z)
  : result (list Z) :=
  if (0 <=? doff) && (0 <=? soff) && (0 <=? n)
     && (doff + n <=? Z.of_nat (length dst)) && (soff + n <=? Z.of_nat (length src))
  then Ok (take (Z.to_nat doff) dst ++ take (Z.to_nat n) (drop (Z.to_nat soff) src)
             ++ drop (Z.to_nat (doff + n)) dst)
  else Undef.

(** ** The RLE decoder, [pmt_decode_group] *)

(** The two cursors of the decode loop, as offsets from [raw_group_buf] and
    [decoded_group_buf], and the contents of the decoded buffer. *)
Record dstate : Type := mk_dstate { src : Z; dst : Z; out : list Z }.

Section Decoder.
Variable raw_group_buf : list Z.
Variable raw_group_size : Z.
Variable decoded_group_buf_size : Z.

(** One pass through the body of the [while] loop. *)
Definition decode_step (s : dstate) : result dstate :=
  do c <- load raw_group_buf (src s);
  if negb (Z.land c 128 =? 0) then
    let run_length := u8 (Z.land c 127) in
    let src1 := src s + 1 in
    if src1 >? raw_group_size then Err InputOverrun
    else if dst s + run_length >? decoded_group_buf_size then Err OutputOverrun
    else
      do v <- load raw_group_buf src1;
      do o <- memset (out s) (dst s) v run_length;
      Ok (mk_dstate (src1 + 1) (dst s + run_length) o)
  else
    let copy_count := c in
    let src1 := src s + 1 in
    if src1 >? raw_group_size then Err InputOverrun
    else if dst s + copy_count >? decoded_group_buf_size then Err OutputOverrun
    else
      do o <- memcpy (out s) (dst s) raw_group_buf src1 copy_count;
      Ok (mk_dstate (src1 + copy_count) (dst s + copy_count) o).

(** The [while] loop, one unit of fuel per pass.  It yields the state in
    which the loop was left and how: [Ok tt] when the loop condition became
    false, otherwise what stopped the last pass. *)
Fixpoint decode_loop (fuel : nat) (s : dstate) : dstate * result unit :=
  if src s <? raw_group_size then
    match fuel with
    | O => (s, OutOfFuel)
    | S fuel' =>
        match decode_step s with
        | Ok s' => decode_loop fuel' s'
        | Err e => (s, Err e)
        | Undef => (s, Undef)
        | OutOfFuel => (s, OutOfFuel)
        end
    end
  else (s, Ok tt).

(** The code after the loop. *)
Definition decode_finish (s : dstate) : result Z :=
  let decoded_bytes := dst s in
  if negb (decoded_bytes =? decoded_group_buf_size) then Err SizeMismatch
  else Ok decoded_bytes.

Definition pmt_decode_group_fuel (fuel : nat) (decoded_group_buf : list Z)
  : result Z * list Z :=
  let '(s, r) := decode_loop fuel (mk_dstate 0 0 decoded_group_buf) in
  (do _ <- r; decode_finish s, out s).

(** The loop with the fuel it needs from state [s]. *)
Definition decode_run (s : dstate) : dstate * result unit :=
  decode_loop (Z.to_nat (raw_group_size - src s)) s.

(** How many times [decode_loop] enters the loop body. *)
Fixpoint decode_passes (fuel : nat) (s : dstate) : nat :=
  if src s <? raw_group_size then
    match fuel with
    | O => O
    | S fuel' =>
        match decode_step s with
        | Ok s' => S (decode_passes fuel' s')
        | _ => 1%nat
        end
    end
  else O.

(** The states in which the loop condition is evaluated, starting from
    [s0]: [s0] itself, and the state after each pass that completes. *)
Inductive decoding (s0 : dstate) : dstate -> Prop :=
  | decoding_start : decoding s0 s0
  | decoding_pass s s' :
      decoding s0 s -> src s < raw_group_size -> decode_step s = Ok s' ->
      decoding s0 s'.
End Decoder.

(** [pmt_decode_group]: the return value and the decoded buffer as the call
    leaves it.  The loop gets one unit of fuel per declared input byte. *)
Definition pmt_decode_group (raw_group_buf : list Z) (raw_group_size : Z)
    (decoded_group_buf : list Z) (decoded_group_buf_size : Z)
  : result Z * list Z :=
  pmt_decode_group_fuel raw_group_buf raw_group_size decoded_group_buf_size
    (Z.to_nat raw_group_size) decoded_group_buf.

(** ** Counted loops *)

(** [for (int i = lo; i < hi; i++) body], with the loop-carried variables
    in [s].  The bounds are constants in every use, so the number of passes
    is known on entry. *)
Fixpoint for_loop {St : Type} (n : nat) (i : Z) (body : Z -> St -> result St) (s : St)
  : result St :=
  match n with
  | O => Ok s
  | S n' => do s' <- body i s; for_loop n' (i + 1) body s'
  end.

Definition for_range {St : Type} (lo hi : Z) (body : Z -> St -> result St) (s : St)
  : result St :=
  for_loop (Z.to_nat (hi - lo)) lo body s.

(** ** The group reader, [pmt_read_group] *)

(** The value of a [uint16_t] whose two bytes were filled by [fread], on a
    little-endian host. *)
Definition le16 (bytes : list Z) : Z :=
  u8 (bytes !!! 0%nat) + 256 * u8 (bytes !!! 1%nat).

(** A [FILE *] open for reading is the list of the bytes not read yet.
    [fread(ptr, 1, n, fh)] delivers [take n fh] and leaves [drop n fh]. *)
Definition pmt_read_group (fh : list Z) (buf : list Z) (buf_size : Z)
  : result Z * list Z * list Z :=
  let size_bytes := take 2 fh in
  let fh1 := drop 2 fh in
  let bytes_read := Z.of_nat (length size_bytes) in
  if negb (bytes_read =? 2) then (Err TruncatedInput, fh1, buf)
  else
    let group_size := le16 size_bytes in
    if group_size >? buf_size then (Err BufferTooSmall, fh1, buf)
    else
      let data := take (Z.to_nat group_size) fh1 in
      let fh2 := drop (Z.to_nat group_size) fh1 in
      let bytes_read := Z.of_nat (length data) in
      match memcpy buf 0 data 0 bytes_read with
      | Ok buf' =>
          if negb (bytes_read =? group_size) then (Err TruncatedInput, fh2, buf')
          else (Ok bytes_read, fh2, buf')
      | _ => (Undef, fh2, buf)
      end.

(** ** The plane reassembler *)

Definition pmt_plane_pixel (pmt_byte pmt_pixel_idx : Z) : Z :=
  let bit_mask := u8 (Z.shiftl 1 pmt_pixel_idx) in
  u8 (Z.shiftr (Z.land pmt_byte bit_mask) pmt_pixel_idx).

(** [bmp_pixel]: [pmt_row] is the offset of the row in the buffer [pmt]; the
    row is indexed as [pmt_row_t], that is [plane][byte]. *)
Definition bmp_pixel (pmt : list Z) (pmt_row : Z) (pmt_row_pixel_idx : Z) : result Z :=
  let pmt_byte_idx := Z.quot pmt_row_pixel_idx 8 in
  let pmt_pixel_idx := u8 (7 - (pmt_row_pixel_idx - pmt_byte_idx * 8)) in
  for_range 0 PMT_PLANES
    (fun pmt_plane result =>
       do pmt_byte <- load pmt (pmt_row + (pmt_plane * PMT_DECODED_ROW_PLANE_BYTES
                                           + pmt_byte_idx));
       Ok (u8 (result + Z.shiftl (pmt_plane_pixel pmt_byte pmt_pixel_idx) pmt_plane)))
    0.

(** The variables carried around the pixel loop of [convert_group_to_bmp]. *)
Record cstate : Type := mk_cstate { bmp_byte : Z; bmp_ptr : Z; bmp : list Z }.

(** The body of the pixel loop for one row. *)
Definition convert_pixel (pmt : list Z) (pmt_row : Z) (pmt_pixel_idx : Z) (s : cstate)
  : result cstate :=
  do bmp_pixel_val <- bmp_pixel pmt pmt_row pmt_pixel_idx;
  if negb (Z.rem pmt_pixel_idx 2 =? 0) then
    let bmp_byte1 := u8 (bmp_byte s + bmp_pixel_val) in
    do bmp1 <- store (bmp s) (bmp_ptr s) bmp_byte1;
    Ok (mk_cstate 0 (bmp_ptr s + 1) bmp1)
  else
    Ok (mk_cstate (u8 (bmp_byte s + Z.shiftl bmp_pixel_val 4)) (bmp_ptr s) (bmp s)).

(** The body of the row loop. *)
Definition convert_row (pmt : list Z) (bmp_group_start : Z) (row : Z) (s : cstate)
  : result cstate :=
  let pmt_row := row * PMT_DECODED_ROW_BYTES in
  let bmp_ptr0 := bmp_group_start + row * BMP_ROW_BYTES in
  for_range 0 PMT_PIXELS_PER_ROW (convert_pixel pmt pmt_row)
    (mk_cstate 0 bmp_ptr0 (bmp s)).

(** [convert_group_to_bmp]: [pmt] is the decoded group, [bmp_buf] the buffer
    that [bmp_group_start] points into.  Returns the final [bmp_ptr] and the
    buffer.  ([bmp_ptr] has no value before the first row sets it; the
    placeholder given here is never read.) *)
Definition convert_group_to_bmp (pmt : list Z) (bmp_buf : list Z) (bmp_group_start : Z)
  : result (Z * list Z) :=
  do s <- for_range 0 PMT_ROWS_PER_GROUP (convert_row pmt bmp_group_start)
            (mk_cstate 0 bmp_group_start bmp_buf);
  Ok (bmp_ptr s, bmp s).

(** ** The colour table converter *)

(** [pmt_color_table_t] is [uint8_t[16][3]] and [bmp_color_table_t] is
    [uint8_t[16][4]]; both are kept flat, row-major. *)
Definition color_entry (pmt_color_table : list Z) (i : Z) (bmp_color_table : list Z)
  : result (list Z) :=
  do t <- for_range 0 3
            (fun c t =>
               do x <- load pmt_color_table (i * 3 + (2 - c));
               store t (i * 4 + c) (Z.shiftl x 2))
            bmp_color_table;
  store t (i * 4 + 3) 0.

Definition pmt_to_bmp_color_table (pmt_color_table bmp_color_table : list Z)
  : result (list Z) :=
  for_range 0 16 (color_entry pmt_color_table) bmp_color_table.

(** ** The pipeline, [pmt_to_bmp] *)

(** The variables of [pmt_to_bmp] that the group loop changes: the input
    file, the two scratch arrays, the caller's pixel array and [end_ptr]
    (an offset into [bmp_buf]). *)
Record pstate : Type := mk_pstate {
  p_in : list Z;
  p_raw_group_buf : list Z;
  p_decoded_group_buf : list Z;
  p_bmp_buf : list Z;
  p_end_ptr : Z
}.

(** A failure seen through a different return type. *)
Definition fail_as {A B : Type} (r : result A) : result B := do _ <- r; Undef.

(** The body of the group loop.  A callee's failure is its return value
    [-1], the only negative value it returns, so [group_bytes_read < 0] and
    [decoded_bytes < 0] are the [Err] cases. *)
Definition process_group (i : Z) (s : pstate) : pstate * result unit :=
  let '(r1, in1, raw1) :=
    pmt_read_group (p_in s) (p_raw_group_buf s) PMT_DECODED_GROUP_BYTES in
  let s1 := mk_pstate in1 raw1 (p_decoded_group_buf s) (p_bmp_buf s) (p_end_ptr s) in
  match r1 with
  | Ok group_bytes_read =>
      let '(r2, dec2) :=
        pmt_decode_group raw1 group_bytes_read (p_decoded_group_buf s)
          PMT_DECODED_GROUP_BYTES in
      let s2 := mk_pstate in1 raw1 dec2 (p_bmp_buf s) (p_end_ptr s) in
      match r2 with
      | Ok decoded_bytes =>
          match convert_group_to_bmp dec2 (p_bmp_buf s) (i * BMP_GROUP_BYTES) with
          | Ok (end_ptr, bmp3) => (mk_pstate in1 raw1 dec2 bmp3 end_ptr, Ok tt)
          | r3 => (s2, fail_as r3)
          end
      | _ => (s2, fail_as r2)
      end
  | _ => (s1, fail_as r1)
  end.

(** [for (int i = 0; i < PMT_GROUPS; i++)], leaving at the first failure. *)
Fixpoint groups_loop (n : nat) (i : Z) (s : pstate) : pstate * result unit :=
  match n with
  | O => (s, Ok tt)
  | S n' =>
      match process_group i s with
      | (s', Ok _) => groups_loop n' (i + 1) s'
      | stopped => stopped
      end
  end.

(** [pmt_to_bmp].  [file] is what [fopen] finds ([None]: the file cannot be
    opened).  [raw_group_buf], [decoded_group_buf] and [pmt_color_table] are
    the contents the three local arrays happen to have on entry; their
    declared sizes are [PMT_DECODED_GROUP_BYTES], [PMT_DECODED_GROUP_BYTES]
    and 48.  The result is the returned pointer as an offset into [bmp_buf]
    (an [Err] is [NULL]), the pixel array and the colour table. *)
Definition pmt_to_bmp (file : option (list Z))
    (raw_group_buf decoded_group_buf pmt_color_table : list Z)
    (bmp_buf bmp_color_table : list Z)
  : result Z * list Z * list Z :=
  match file with
  | None => (Err OpenFailure, bmp_buf, bmp_color_table)
  | Some in0 =>
      match groups_loop (Z.to_nat PMT_GROUPS) 0
              (mk_pstate in0 raw_group_buf decoded_group_buf bmp_buf 0) with
      | (s, Ok _) =>
          (* fseek(in, 16, SEEK_CUR), then fread of sizeof(pmt_color_table_t) *)
          let in1 := drop 16 (p_in s) in
          let data := take 48 in1 in
          let color_table_bytes_read := Z.of_nat (length data) in
          match memcpy pmt_color_table 0 data 0 color_table_bytes_read with
          | Ok table =>
              if negb (color_table_bytes_read =? 48)
              then (Err TruncatedInput, p_bmp_buf s, bmp_color_table)
              else
                match pmt_to_bmp_color_table table bmp_color_table with
                | Ok t => (Ok (p_end_ptr s), p_bmp_buf s, t)
                | r => (fail_as r, p_bmp_buf s, bmp_color_table)
                end
          | r => (fail_as r, p_bmp_buf s, bmp_color_table)
          end
      | (s, r) => (fail_as r, p_bmp_buf s, bmp_color_table)
      end
  end.

(** ** The BMP headers and [main] *)

Definition PMT_ROWS : Z := PMT_ROWS_PER_GROUP * PMT_GROUPS.

(** Conversion to [uint32_t]. *)
Definition u32 (x : Z) : Z := x mod 2 ^ 32.

(** The [n] bytes of the object representation of an unsigned field with
    value [v], on a little-endian host. *)
Fixpoint le_bytes (n : nat) (v : Z) : list Z :=
  match n with
  | O => []
  | S n' => v mod 256 :: le_bytes n' (v / 256)
  end.

Record bmp_file_header_t : Type := mk_bmp_file_header {
  magic : list Z;
  file_size : Z;
  reserved : Z;
  pixel_array_offset : Z
}.

Record bmp_info_header_t : Type := mk_bmp_info_header {
  header_size : Z;
  width : Z;
  height : Z;
  color_planes : Z;
  bits_per_pixel : Z;
  compression : Z;
  image_size : Z;
  horizontal_ppm : Z;
  vertical_ppm : Z;
  colors : Z;
  important_colors : Z
}.

(** The sizes of the three types under [#pragma pack(1)]. *)
Definition sizeof_bmp_file_header_t : Z := 2 + 4 + 4 + 4.
Definition sizeof_bmp_info_header_t : Z := 4 + 4 + 4 + 2 + 2 + 4 + 4 + 4 + 4 + 4 + 4.
Definition sizeof_bmp_color_table_t : Z := 16 * 4.

Definition BMP_HEADER_SIZE : Z :=
  sizeof_bmp_file_header_t + sizeof_bmp_info_header_t + sizeof_bmp_color_table_t.

Definition bmp_file_header : bmp_file_header_t :=
  mk_bmp_file_header [66; 77] (u32 (BMP_HEADER_SIZE + BMP_PIXEL_ARRAY_SIZE)) 0
    (u32 BMP_HEADER_SIZE).

Definition bmp_info_header : bmp_info_header_t :=
  mk_bmp_info_header
    (u32 sizeof_bmp_info_header_t)
    (u32 PMT_PIXELS_PER_ROW)
    (u32 (- PMT_ROWS))
    1
    PMT_PLANES
    0 0 0 0
    (u32 (Z.shiftl 1 PMT_PLANES))
    0.

(** The bytes [fwrite] takes from the two structures: the fields in order,
    without padding. *)
Definition bmp_file_header_bytes (h : bmp_file_header_t) : list Z :=
  magic h ++ le_bytes 4 (file_size h) ++ le_bytes 4 (reserved h)
  ++ le_bytes 4 (pixel_array_offset h).

Definition bmp_info_header_bytes (h : bmp_info_header_t) : list Z :=
  le_bytes 4 (header_size h) ++ le_bytes 4 (width h) ++ le_bytes 4 (height h)
  ++ le_bytes 2 (color_planes h) ++ le_bytes 2 (bits_per_pixel h)
  ++ le_bytes 4 (compression h) ++ le_bytes 4 (image_size h)
  ++ le_bytes 4 (horizontal_ppm h) ++ le_bytes 4 (vertical_ppm h)
  ++ le_bytes 4 (colors h) ++ le_bytes 4 (important_colors h).

(** The [n] bytes [fwrite(buf, 1, n, out)] takes from [buf]. *)
Definition fwrite_bytes (buf : list Z) (n : Z) : result (list Z) :=
  if (0 <=? n) && (n <=? Z.of_nat (length buf))
  then Ok (u8 <$> take (Z.to_nat n) buf)
  else Undef.

(** [main].  [argc] is the argument count, [file] what [fopen] finds under
    [argv[1]], [out_opens] whether [argv[2]] can be opened for writing; the
    five lists are the contents the local arrays of [main] and of
    [pmt_to_bmp] happen to have.  The result is the exit status and the
    output file: [None] when the program does not open one, otherwise the
    bytes written to it.  A [NULL] from [pmt_to_bmp] is no pointer into
    [bmp_pixel_array], so its distance from the array is taken to differ
    from [BMP_PIXEL_ARRAY_SIZE]; the writes to an opened file are taken to
    succeed (the program does not look at what [fwrite] returns); leaving
    [main] at its end is the exit status 0. *)
Definition main (argc : Z) (file : option (list Z)) (out_opens : bool)
    (raw_group_buf decoded_group_buf pmt_color_table : list Z)
    (bmp_pixel_array bmp_color_table : list Z)
  : result Z * option (list Z) :=
  if argc <? 3 then (Ok 1, None)
  else
    let '(r, pixels, table) :=
      pmt_to_bmp file raw_group_buf decoded_group_buf pmt_color_table
        bmp_pixel_array bmp_color_table in
    match r with
    | Ok out_ptr =>
        if negb (out_ptr - 0 =? BMP_PIXEL_ARRAY_SIZE) then (Ok 1, None)
        else if out_opens then
          match fwrite_bytes table sizeof_bmp_color_table_t,
                fwrite_bytes pixels BMP_PIXEL_ARRAY_SIZE with
          | Ok table_bytes, Ok pixel_bytes =>
              (Ok 0, Some (bmp_file_header_bytes bmp_file_header
                           ++ bmp_info_header_bytes bmp_info_header
                           ++ table_bytes ++ pixel_bytes))
          | _, _ => (Undef, Some [])
          end
        else (Undef, None)
    | Err _ => (Ok 1, None)
    | Undef => (Undef, None)
    | OutOfFuel => (OutOfFuel, None)
    end.

(** ** Reference definitions, written from the description of the format *)

(** An opcode of the RLE scheme: a run of [n] copies of [v], or a literal
    copy of some bytes. *)
Inductive opcode : Type :=
  | Run (n : Z) (v : Z)
  | Literal (bytes : list Z).

(** An opcode the scheme can express: counts up to 127, and a byte as the
    run value. *)
Definition opcode_ok (op : opcode) : Prop :=
  match op with
  | Run n v => 0 <= n <= 127 /\ 0 <= v < 256
  | Literal bytes => Z.of_nat (length bytes) <= 127
  end.

(** The control byte of an opcode followed by its operand bytes. *)
Definition encode_opcode (op : opcode) : list Z :=
  match op with
  | Run n v => [128 + n; v]
  | Literal bytes => Z.of_nat (length bytes) :: bytes
  end.

Definition encode (ops : list opcode) : list Z := mjoin (encode_opcode <$> ops).

(** The bytes an opcode stands for. *)
Definition opcode_output (op : opcode) : list Z :=
  match op with
  | Run n v => replicate (Z.to_nat n) v
  | Literal bytes => bytes
  end.

(** The decoded buffer [dec] after [w] has been written at its start. *)
Definition written_buffer (dec w : list Z) : list Z := w ++ drop (length w) dec.

(** The decoder of the format description, opcode by opcode: [written] is
    the output so far; an opcode whose output does not fit in [size] bytes
    stops the decoding, and the total must be [size] at the end. *)
Fixpoint spec_decode (size : Z) (ops : list opcode) (written : list Z)
  : result Z * list Z :=
  match ops with
  | [] =>
      (if Z.of_nat (length written) =? size then Ok size else Err SizeMismatch, written)
  | op :: ops' =>
      if Z.of_nat (length written + length (opcode_output op)) >? size
      then (Err OutputOverrun, written)
      else spec_decode size ops' (written ++ opcode_output op)
  end.

(** The declared input size [raw_size] ends in the last opcode of [ops]: it
    takes in the control byte of the last opcode, and nothing behind the
    opcode's last byte.  For no opcode at all, no input is declared. *)
Definition ends_in_last_opcode (ops : list opcode) (raw_size : Z) : Prop :=
  match ops with
  | [] => raw_size <= 0
  | _ :: _ =>
      Z.of_nat (length (encode (removelast ops))) < raw_size <= Z.of_nat (length (encode ops))
  end.

(** The opcodes of the format description in a raw buffer: as long as
    declared input is left, a control byte with the high bit set is a run
    with the next byte as its value, and a control byte [n] with the high bit
    clear is a literal with the next [n] bytes.  [None] when the buffer ends
    before the operand does. *)
Fixpoint read_opcodes (fuel : nat) (raw : list Z) (raw_size : Z) : option (list opcode) :=
  match fuel with
  | O => Some []
  | S fuel' =>
      if raw_size <=? 0 then Some []
      else
        match raw with
        | [] => None
        | n :: operands =>
            if Z.land n 128 =? 0 then
              if n <=? Z.of_nat (length operands) then
                cons (Literal (take (Z.to_nat n) operands))
                  <$> read_opcodes fuel' (drop (Z.to_nat n) operands) (raw_size - 1 - n)
              else None
            else
              match operands with
              | [] => None
              | v :: tail =>
                  cons (Run (Z.land n 127) v) <$> read_opcodes fuel' tail (raw_size - 2)
              end
        end
  end.

Definition opcodes_of (raw : list Z) (raw_size : Z) : option (list opcode) :=
  read_opcodes (Z.to_nat raw_size) raw raw_size.

(** [new] written over the cells of [buf] from offset [off] on. *)
Definition splice (buf : list Z) (off : nat) (new : list Z) : list Z :=
  take off buf ++ new ++ drop (off + length new) buf.

(** The list [f 0; f 1; ...; f (n - 1)]. *)
Definition tabulate (n : Z) (f : Z -> Z) : list Z := f <$> seqZ 0 n.

(** The bit of pixel [j] in plane [p] of the row that starts at offset
    [row] of the decoded group [pmt]: bit [7 - j mod 8] of byte [j / 8] of
    the plane. *)
Definition plane_bit (pmt : list Z) (row p j : Z) : Z :=
  Z.b2z (Z.testbit
           (u8 (pmt !!! Z.to_nat (row + (p * PMT_DECODED_ROW_PLANE_BYTES + j / 8))))
           (7 - j mod 8)).

(** The 4-bit value of pixel [j]: plane [p] gives bit [p]. *)
Definition pixel_value (pmt : list Z) (row j : Z) : Z :=
  Z.shiftl (plane_bit pmt row 0 j) 0 + Z.shiftl (plane_bit pmt row 1 j) 1
  + Z.shiftl (plane_bit pmt row 2 j) 2 + Z.shiftl (plane_bit pmt row 3 j) 3.

(** Output byte [k] of a row: pixel [2k] in the high nibble, pixel [2k+1]
    in the low one. *)
Definition packed_byte (pmt : list Z) (row k : Z) : Z :=
  Z.lor (Z.shiftl (pixel_value pmt row (2 * k)) 4) (pixel_value pmt row (2 * k + 1)).

(** The packed bytes of a whole group, row after row. *)
Definition reassemble (pmt : list Z) : list Z :=
  tabulate BMP_GROUP_BYTES
    (fun i => packed_byte pmt (i / BMP_ROW_BYTES * PMT_DECODED_ROW_BYTES)
                (i mod BMP_ROW_BYTES)).

(** Byte [j] of the BMP colour table made from the PMT colour table
    [pmt_color_table]: entry [j / 4], channel [j mod 4]; channels 0, 1, 2
    are the input channels 2, 1, 0 shifted left by 2 within a byte, and
    channel 3 is 0. *)
Definition color_byte (pmt_color_table : list Z) (j : Z) : Z :=
  if j mod 4 =? 3 then 0
  else u8 (Z.shiftl (u8 (pmt_color_table !!! Z.to_nat (j / 4 * 3 + (2 - j mod 4)))) 2).

(** The decoded groups of a file, in input order: for each of [n] groups
    the group reader, then the RLE decoder.  [raw] and [dec] are the two
    scratch arrays, which every group leaves to the next one.  Yields the
    decoded groups and what is left of the file. *)
Fixpoint decoded_groups (n : nat) (fh raw dec : list Z)
  : result (list (list Z) * list Z) :=
  match n with
  | O => Ok ([], fh)
  | S n' =>
      let '(r1, fh1, raw1) := pmt_read_group fh raw PMT_DECODED_GROUP_BYTES in
      do group_bytes_read <- r1;
      let '(r2, dec2) :=
        pmt_decode_group raw1 group_bytes_read dec PMT_DECODED_GROUP_BYTES in
      do _ <- r2;
      do later <- decoded_groups n' fh1 raw1 dec2;
      Ok (dec2 :: later.1, later.2)
  end.

(** The value of a field from the bytes of its object representation, on
    a little-endian host. *)
Definition le_value (bytes : list Z) : Z := foldr (fun b v => b + 256 * v) 0 bytes.

(** A PMT file: the groups, each as its 2-byte length and the encoding of
    its opcodes, then the footer and whatever follows it. *)
Definition pmt_group_bytes (ops : list opcode) : list Z :=
  le_bytes 2 (Z.of_nat (length (encode ops))) ++ encode ops.

Definition pmt_file_bytes (groups : list (list opcode)) (footer : list Z) : list Z :=
  (groups ≫= pmt_group_bytes) ++ footer.

(** A group the program can take: opcodes the scheme can express, an
    encoding that fits the scratch array, and 62160 bytes of output. *)
Definition group_ok (ops : list opcode) : Prop :=
  Forall opcode_ok ops
  /\ Z.of_nat (length (encode ops)) <= PMT_DECODED_GROUP_BYTES
  /\ Z.of_nat (length (ops ≫= opcode_output)) = PMT_DECODED_GROUP_BYTES.

(** The nibble of pixel [j] in the packed byte [b] that holds it. *)
Definition nibble (b j : Z) : Z :=
  if j mod 2 =? 0 then Z.shiftr b 4 else Z.land b 15.

Example run_then_literal :
  pmt_decode_group [131; 7; 2; 8; 9] 5 [0; 0; 0; 0; 0] 5
  = (Ok 5, [7; 7; 7; 8; 9]).
Proof. reflexivity. Qed.

Example short_run_is_size_mismatch :
  pmt_decode_group [131; 7] 2 [0; 0; 0; 0; 0] 5
  = (Err SizeMismatch, [7; 7; 7; 0; 0]).
Proof. reflexivity. Qed.

Example run_past_output :
  pmt_decode_group [130; 7; 132; 9] 4 [0; 0; 0; 0; 0] 5
  = (Err OutputOverrun, [7; 7; 0; 0; 0]).
Proof. reflexivity. Qed.

Example color_entry_example :
  pmt_to_bmp_color_table ([63; 32; 16] ++ replicate 45 0) (replicate 64 255)
  = Ok ([64; 128; 252; 0] ++ replicate 60 0).
Proof. reflexivity. Qed.

Example read_group_example :
  pmt_read_group [3; 0; 131; 7; 0; 9; 9] [1; 1; 1; 1; 1] 5
  = (Ok 3, [9; 9], [131; 7; 0; 1; 1]).
Proof. reflexivity. Qed.

Example bmp_pixel_example :
  bmp_pixel ([128] ++ replicate 419 0) 0 0 = Ok 1
  /\ bmp_pixel ([128] ++ replicate 419 0) 0 1 = Ok 0.
Proof. split; reflexivity. Qed.

(** * Properties *)

(** ** Integers and memory *)

Lemma u8_range x : 0 <= u8 x < 256.
Proof. unfold u8. apply Z.mod_pos_bound. lia. Qed.

Lemma u8_small x : 0 <= x < 256 -> u8 x = x.
Proof. unfold u8. intros. apply Z.mod_small. lia. Qed.

Lemma u8_u8 x : u8 (u8 x) = u8 x.
Proof. apply u8_small, u8_range. Qed.

(** A property of all integers below [n] that a computation can check. *)
Lemma below_forallb (P : Z -> bool) (n : Z) :
  forallb P (seqZ 0 n) = true -> forall c, 0 <= c < n -> P c = true.
Proof.
  intros H c Hc. rewrite forallb_forall in H. apply H.
  apply list_elem_of_In, elem_of_seqZ. lia.
Qed.

(** Replaces the format constants by their values. *)
Ltac format_constants :=
  unfold BMP_PIXEL_ARRAY_SIZE, PMT_GROUPS, BMP_GROUP_BYTES, PMT_DECODED_GROUP_BYTES,
    PMT_ROWS_PER_GROUP, BMP_ROW_BYTES, PMT_DECODED_ROW_BYTES, PMT_PLANES,
    PMT_PIXELS_PER_ROW, PMT_DECODED_ROW_PLANE_BYTES in *.

Ltac zbool :=
  repeat match goal with
    | |- context [?a <=? ?b] => destruct (Z.leb_spec a b)
    | |- context [?a <? ?b] => destruct (Z.ltb_spec a b)
    | |- context [?a >? ?b] => rewrite (Z.gtb_ltb a b)
    | |- context [?a =? ?b] => destruct (Z.eqb_spec a b)
    | H : context [?a <=? ?b] |- _ => destruct (Z.leb_spec a b)
    | H : context [?a <? ?b] |- _ => destruct (Z.ltb_spec a b)
    | H : context [?a >? ?b] |- _ => rewrite (Z.gtb_ltb a b) in H
    | H : context [?a =? ?b] |- _ => destruct (Z.eqb_spec a b)
    end; simpl in *.

Lemma load_in_bounds buf i :
  0 <= i < Z.of_nat (length buf) ->
  exists b, buf !! Z.to_nat i = Some b /\ load buf i = Ok (u8 b).
Proof.
  intros Hi. destruct (lookup_lt_is_Some_2 buf (Z.to_nat i)) as [b Hb]; [lia|].
  exists b. split; [done|]. unfold load. rewrite Hb. zbool; done || lia.
Qed.

Lemma load_inv buf i v :
  load buf i = Ok v ->
  0 <= i < Z.of_nat (length buf) /\ 0 <= v < 256
  /\ exists b, buf !! Z.to_nat i = Some b /\ v = u8 b.
Proof.
  unfold load. intros H. zbool; try done.
  destruct (buf !! Z.to_nat i) as [b|] eqn:Hb; [|done].
  injection H as <-. apply lookup_lt_Some in Hb as Hlt.
  split; [lia|]. split; [apply u8_range|]. by exists b.
Qed.

Lemma store_in_bounds buf i v :
  0 <= i < Z.of_nat (length buf) -> store buf i v = Ok (<[Z.to_nat i := u8 v]> buf).
Proof. intros Hi. unfold store. zbool; done || lia. Qed.

Lemma memset_in_bounds buf off v n :
  0 <= off -> 0 <= n -> off + n <= Z.of_nat (length buf) ->
  memset buf off v n
  = Ok (take (Z.to_nat off) buf ++ replicate (Z.to_nat n) (u8 v)
          ++ drop (Z.to_nat (off + n)) buf).
Proof. intros. unfold memset. zbool; done || lia. Qed.

Lemma memset_inv buf off v n o :
  memset buf off v n = Ok o ->
  0 <= off /\ 0 <= n /\ off + n <= Z.of_nat (length buf)
  /\ o = take (Z.to_nat off) buf ++ replicate (Z.to_nat n) (u8 v)
           ++ drop (Z.to_nat (off + n)) buf.
Proof. unfold memset. intros H. zbool; try done. by injection H as <-. Qed.

Lemma memcpy_in_bounds dst0 doff src0 soff n :
  0 <= doff -> 0 <= soff -> 0 <= n ->
  doff + n <= Z.of_nat (length dst0) -> soff + n <= Z.of_nat (length src0) ->
  memcpy dst0 doff src0 soff n
  = Ok (take (Z.to_nat doff) dst0 ++ take (Z.to_nat n) (drop (Z.to_nat soff) src0)
          ++ drop (Z.to_nat (doff + n)) dst0).
Proof. intros. unfold memcpy. zbool; done || lia. Qed.

Lemma memcpy_inv dst0 doff src0 soff n o :
  memcpy dst0 doff src0 soff n = Ok o ->
  0 <= doff /\ 0 <= soff /\ 0 <= n
  /\ doff + n <= Z.of_nat (length dst0) /\ soff + n <= Z.of_nat (length src0)
  /\ o = take (Z.to_nat doff) dst0 ++ take (Z.to_nat n) (drop (Z.to_nat soff) src0)
           ++ drop (Z.to_nat (doff + n)) dst0.
Proof. unfold memcpy. intros H. zbool; try done. by injection H as <-. Qed.

(** Memory accesses report no failure of their own. *)
Lemma load_not_err buf i e : load buf i <> Err e.
Proof. unfold load. by repeat case_match. Qed.

Lemma memset_not_err buf off v n e : memset buf off v n <> Err e.
Proof. unfold memset. by case_match. Qed.

Lemma memcpy_not_err dst0 doff src0 soff n e : memcpy dst0 doff src0 soff n <> Err e.
Proof. unfold memcpy. by case_match. Qed.

Lemma store_not_err buf i v e : store buf i v <> Err e.
Proof. unfold store. by case_match. Qed.

(** The two halves of a control byte. *)
Lemma control_byte_run_length c : 0 <= c < 256 -> 0 <= Z.land c 127 <= 127.
Proof.
  intros Hc.
  pose proof (below_forallb
    (fun c => (0 <=? Z.land c 127) && (Z.land c 127 <=? 127)) 256 eq_refl c Hc) as H.
  simpl in H. zbool; done || lia.
Qed.

Lemma control_byte_literal c : 0 <= c < 256 -> Z.land c 128 = 0 -> c <= 127.
Proof.
  intros Hc H0.
  pose proof (below_forallb
    (fun c => negb (Z.land c 128 =? 0) || (c <=? 127)) 256 eq_refl c Hc) as H.
  simpl in H. rewrite H0 in H. simpl in H. zbool; done || lia.
Qed.

(** ** The decode loop *)

Section DecoderFacts.
Variable raw : list Z.
Variables raw_size size : Z.

(** What a pass that completes has done. *)
Lemma decode_step_inv s s' :
  decode_step raw raw_size size s = Ok s' ->
  exists c, load raw (src s) = Ok c /\
    ((Z.land c 128 <> 0 /\ dst s + Z.land c 127 <= size /\
      exists v, load raw (src s + 1) = Ok v /\
        memset (out s) (dst s) v (Z.land c 127) = Ok (out s') /\
        src s' = src s + 2 /\ dst s' = dst s + Z.land c 127)
     \/ (Z.land c 128 = 0 /\ dst s + c <= size /\
         memcpy (out s) (dst s) raw (src s + 1) c = Ok (out s') /\
         src s' = src s + 1 + c /\ dst s' = dst s + c)).
Proof.
  unfold decode_step. destruct (load raw (src s)) as [c| | |] eqn:Hc; try done.
  simpl. destruct (load_inv _ _ _ Hc) as (_ & Hrange & _).
  rewrite (u8_small (Z.land c 127)) by (pose proof (control_byte_run_length c Hrange); lia).
  intros H. exists c. split; [done|].
  rewrite !Z.gtb_ltb in H.
  destruct (Z.eqb_spec (Z.land c 128) 0) as [Hbit|Hbit]; simpl in H;
    destruct (Z.ltb_spec raw_size (src s + 1)); try done.
  - right. split; [done|].
    destruct (Z.ltb_spec size (dst s + c)); [done|].
    destruct (memcpy (out s) (dst s) raw (src s + 1) c) as [o| | |] eqn:Ho; try done.
    injection H as <-. simpl. repeat split; done || lia.
  - left. split; [done|].
    destruct (Z.ltb_spec size (dst s + Z.land c 127)); [done|].
    split; [lia|].
    destruct (load raw (src s + 1)) as [v| | |] eqn:Hv; try done. simpl in H.
    destruct (memset (out s) (dst s) v (Z.land c 127)) as [o| | |] eqn:Ho; try done.
    injection H as <-. exists v. simpl. repeat split; done || lia.
Qed.

(** Every pass moves the input cursor forward. *)
Lemma decode_step_advances s s' :
  decode_step raw raw_size size s = Ok s' -> src s + 1 <= src s'.
Proof.
  intros H. destruct (decode_step_inv _ _ H) as (c & Hc & [Hrun|Hlit]).
  - destruct Hrun as (_ & _ & v & _ & _ & -> & _). lia.
  - destruct Hlit as (_ & _ & Hcpy & -> & _).
    apply memcpy_inv in Hcpy. lia.
Qed.

Lemma decode_step_not_out_of_fuel s :
  decode_step raw raw_size size s <> OutOfFuel.
Proof.
  unfold decode_step, load, memset, memcpy.
  repeat (match goal with
          | |- context [if ?b then _ else _] => destruct b
          | |- context [match ?x with _ => _ end] => destruct x
          end; simpl; try done).
Qed.

(** Fuel beyond the number of input bytes left changes nothing. *)
Lemma decode_loop_fuel fuel1 fuel2 s :
  raw_size - src s <= Z.of_nat fuel1 -> raw_size - src s <= Z.of_nat fuel2 ->
  decode_loop raw raw_size size fuel1 s = decode_loop raw raw_size size fuel2 s.
Proof.
  revert fuel2 s. induction fuel1 as [|fuel1 IH]; intros [|fuel2] s H1 H2; simpl;
    destruct (Z.ltb_spec (src s) raw_size); try done; try lia.
  destruct (decode_step raw raw_size size s) as [s'| | |] eqn:Hstep; try done.
  pose proof (decode_step_advances _ _ Hstep). apply IH; lia.
Qed.

Lemma decode_run_unfold s :
  decode_run raw raw_size size s
  = if src s <? raw_size then
      match decode_step raw raw_size size s with
      | Ok s' => decode_run raw raw_size size s'
      | Err e => (s, Err e)
      | _ => (s, Undef)
      end
    else (s, Ok tt).
Proof.
  unfold decode_run. destruct (Z.to_nat (raw_size - src s)) as [|n] eqn:Hn; simpl;
    destruct (Z.ltb_spec (src s) raw_size); try done; try lia.
  destruct (decode_step raw raw_size size s) as [s'| | |] eqn:Hstep; try done.
  - pose proof (decode_step_advances _ _ Hstep). apply decode_loop_fuel; lia.
  - by destruct (decode_step_not_out_of_fuel s).
Qed.

Lemma decode_run_not_out_of_fuel s : (decode_run raw raw_size size s).2 <> OutOfFuel.
Proof.
  unfold decode_run. remember (Z.to_nat (raw_size - src s)) as n eqn:Hn.
  assert (raw_size - src s <= Z.of_nat n) as Hle by lia. clear Hn.
  revert s Hle. induction n as [|n IH]; intros s Hle; simpl;
    destruct (Z.ltb_spec (src s) raw_size); try done; try lia.
  destruct (decode_step raw raw_size size s) as [s'| | |] eqn:Hstep; try done.
  - pose proof (decode_step_advances _ _ Hstep). apply IH; lia.
  - by destruct (decode_step_not_out_of_fuel s).
Qed.

(** The loop enters its body at most once per input byte. *)
Lemma decode_passes_bound fuel s :
  (decode_passes raw raw_size size fuel s <= Z.to_nat (raw_size - src s))%nat.
Proof.
  revert s. induction fuel as [|fuel IH]; intros s; simpl;
    destruct (Z.ltb_spec (src s) raw_size); try lia.
  destruct (decode_step raw raw_size size s) as [s'| | |] eqn:Hstep; try lia.
  pose proof (decode_step_advances _ _ Hstep). specialize (IH s'). lia.
Qed.

(** From a state the loop passes through, the loop ends the way it ends
    from the start. *)
Lemma decoding_run s0 s :
  decoding raw raw_size size s0 s -> decode_run raw raw_size size s0 = decode_run raw raw_size size s.
Proof.
  induction 1 as [|s s' _ IH Hlt Hstep]; [done|].
  rewrite IH, (decode_run_unfold s), Hstep.
  by destruct (Z.ltb_spec (src s) raw_size); [|lia].
Qed.
End DecoderFacts.

Lemma pmt_decode_group_run raw raw_size dec size :
  pmt_decode_group raw raw_size dec size
  = let '(s, r) := decode_run raw raw_size size (mk_dstate 0 0 dec) in
    (do _ <- r; decode_finish size s, out s).
Proof.
  unfold pmt_decode_group, pmt_decode_group_fuel, decode_run. simpl.
  by rewrite Z.sub_0_r.
Qed.

Section DecoderRuns.
Variable raw : list Z.
Variables raw_size size : Z.

Lemma decoding_step_first s0 s1 s :
  src s0 < raw_size -> decode_step raw raw_size size s0 = Ok s1 ->
  decoding raw raw_size size s1 s -> decoding raw raw_size size s0 s.
Proof.
  intros Hlt Hstep. induction 1 as [|s s' _ IH Hlt' Hstep'].
  - eapply decoding_pass; [apply decoding_start|done..].
  - eapply decoding_pass; [apply IH|done..].
Qed.

(** How the loop is left: in a state it passes through, either with its
    condition false or in the pass that failed. *)
Lemma decode_run_inv s0 s r :
  decode_run raw raw_size size s0 = (s, r) ->
  decoding raw raw_size size s0 s
  /\ match r with
     | Ok _ => raw_size <= src s
     | OutOfFuel => False
     | _ => src s < raw_size /\ decode_step raw raw_size size s = fail_as r
     end.
Proof.
  remember (Z.to_nat (raw_size - src s0)) as n eqn:Hn.
  assert (Z.to_nat (raw_size - src s0) <= n)%nat as Hle by lia. clear Hn.
  revert s0 Hle. induction n as [|n IH]; intros s0 Hle; rewrite decode_run_unfold;
    destruct (Z.ltb_spec (src s0) raw_size) as [Hlt|Hge]; try lia.
  - intros [= <- <-]. split; [apply decoding_start|done].
  - destruct (decode_step raw raw_size size s0) as [s1| | |] eqn:Hstep.
    + intros Hrun. pose proof (decode_step_advances _ _ _ _ _ Hstep).
      apply IH in Hrun as [Hdec Hr]; [|lia].
      split; [|done]. by eapply decoding_step_first.
    + intros [= <- <-]. split; [apply decoding_start|done].
    + intros [= <- <-]. split; [apply decoding_start|done].
    + by destruct (decode_step_not_out_of_fuel raw raw_size size s0).
  - intros [= <- <-]. split; [apply decoding_start|done].
Qed.

(** The only failure a pass can report is the output overrun: once the
    loop condition [src < raw_group_size] holds, [src + 1 > raw_group_size]
    is false, so the input check never fires. *)
Lemma decode_step_err s e :
  src s < raw_size -> decode_step raw raw_size size s = Err e -> e = OutputOverrun.
Proof.
  intros Hlt. unfold decode_step.
  destruct (load raw (src s)) as [c|e'| |] eqn:Hc; try done;
    [|by destruct (load_not_err _ _ _ Hc)]. simpl.
  rewrite !Z.gtb_ltb. destruct (Z.ltb_spec raw_size (src s + 1)); [lia|].
  destruct (negb (Z.land c 128 =? 0)).
  - destruct (Z.ltb_spec size (dst s + u8 (Z.land c 127))); [congruence|].
    destruct (load raw (src s + 1)) as [v|e'| |] eqn:Hv; try done;
      [|by destruct (load_not_err _ _ _ Hv)]. simpl.
    destruct (memset (out s) (dst s) v (u8 (Z.land c 127))) as [o|e'| |] eqn:Ho; try done.
    by destruct (memset_not_err _ _ _ _ _ Ho).
  - destruct (Z.ltb_spec size (dst s + c)); [congruence|].
    destruct (memcpy (out s) (dst s) raw (src s + 1) c) as [o|e'| |] eqn:Ho; try done.
    by destruct (memcpy_not_err _ _ _ _ _ _ Ho).
Qed.

(** The pass that meets an opcode whose output does not fit. *)
Lemma decode_step_output_overrun s c :
  src s < raw_size -> load raw (src s) = Ok c ->
  dst s + (if Z.land c 128 =? 0 then c else Z.land c 127) > size ->
  decode_step raw raw_size size s = Err OutputOverrun.
Proof.
  intros Hlt Hc Hover. unfold decode_step. rewrite Hc. simpl.
  destruct (load_inv _ _ _ Hc) as (_ & Hrange & _).
  rewrite (u8_small (Z.land c 127)) by (pose proof (control_byte_run_length c Hrange); lia).
  rewrite !Z.gtb_ltb. destruct (Z.ltb_spec raw_size (src s + 1)); [lia|].
  destruct (Z.eqb_spec (Z.land c 128) 0); simpl.
  - destruct (Z.ltb_spec size (dst s + c)); [done|lia].
  - destruct (Z.ltb_spec size (dst s + Z.land c 127)); [done|lia].
Qed.

(** The write cursor counts the cells written so far: they are the cells
    below it, and the rest of the buffer is as it was on entry. *)
Lemma decoding_written dec s :
  decoding raw raw_size size (mk_dstate 0 0 dec) s ->
  0 <= src s /\ 0 <= dst s <= Z.of_nat (length dec)
  /\ length (out s) = length dec
  /\ drop (Z.to_nat (dst s)) (out s) = drop (Z.to_nat (dst s)) dec.
Proof.
  induction 1 as [|s s' _ IH Hlt Hstep]; [simpl; repeat split; done || lia|].
  destruct IH as (Hsrc & Hdst & Hlen & Hdrop).
  pose proof (decode_step_advances _ _ _ _ _ Hstep) as Hadv.
  assert (forall n,
    0 <= n -> dst s + n <= Z.of_nat (length (out s)) -> dst s' = dst s + n ->
    (exists mid, length mid = Z.to_nat n /\
       out s' = take (Z.to_nat (dst s)) (out s) ++ mid
                  ++ drop (Z.to_nat (dst s + n)) (out s)) ->
    0 <= dst s' <= Z.of_nat (length dec) /\ length (out s') = length dec
    /\ drop (Z.to_nat (dst s')) (out s') = drop (Z.to_nat (dst s')) dec) as Hwrite.
  { intros n Hn Hfit Hdst' (mid & Hmid & Ho). rewrite Ho, Hdst'.
    split; [lia|]. split.
    - rewrite !length_app, length_take, length_drop. lia.
    - rewrite app_assoc, drop_app_length'.
      + replace (Z.to_nat (dst s + n)) with (Z.to_nat (dst s) + Z.to_nat n)%nat by lia.
        by rewrite <- !drop_drop, Hdrop.
      + rewrite length_app, length_take. lia. }
  split; [lia|].
  destruct (decode_step_inv _ _ _ _ _ Hstep) as (c & Hc & [Hrun|Hlit]).
  - destruct Hrun as (_ & _ & v & _ & Hset & _ & Hdst').
    apply memset_inv in Hset as (_ & Hn & Hfit & Ho).
    apply (Hwrite (Z.land c 127)); try done.
    eexists. split; [|exact Ho]. by rewrite length_replicate.
  - destruct Hlit as (_ & _ & Hcpy & _ & Hdst').
    apply memcpy_inv in Hcpy as (_ & _ & Hn & Hfit & Hsrcfit & Ho).
    apply (Hwrite c); try done.
    eexists. split; [|exact Ho]. rewrite length_take, length_drop. lia.
Qed.
End DecoderRuns.

Lemma pmt_decode_group_not_out_of_fuel raw raw_size dec size :
  (pmt_decode_group raw raw_size dec size).1 <> OutOfFuel.
Proof.
  rewrite pmt_decode_group_run.
  pose proof (decode_run_not_out_of_fuel raw raw_size size (mk_dstate 0 0 dec)) as H.
  destruct (decode_run raw raw_size size (mk_dstate 0 0 dec)) as [s r].
  simpl in *. destruct r; try done. unfold decode_finish. by case_match.
Qed.

(** The decoded buffer keeps its length, and a successful call has written
    all of its first [size] cells. *)
Lemma pmt_decode_group_length raw raw_size dec size :
  length (pmt_decode_group raw raw_size dec size).2 = length dec.
Proof.
  rewrite pmt_decode_group_run.
  destruct (decode_run raw raw_size size (mk_dstate 0 0 dec)) as [s r] eqn:Hrun.
  apply decode_run_inv in Hrun as [Hdec _]. simpl.
  by destruct (decoding_written _ _ _ _ _ Hdec) as (_ & _ & Hlen & _).
Qed.

(** ** Termination of the decoder *)

(** C10.  [pmt_decode_group] terminates on every raw input, whatever its
    contents: the loop never runs out of the fuel of one unit per declared
    input byte, more fuel changes nothing, and the loop body is entered at
    most [raw_group_size] times.  The reason is that every pass that
    completes moves the input cursor forward: by exactly 2 for a run opcode
    (a run of length 0 included) and by 1 + count for a literal opcode (a
    count of 0 included). *)
Theorem pmt_decode_group_terminates (raw : list Z) (raw_size : Z) (dec : list Z) (size : Z) :
  (pmt_decode_group raw raw_size dec size).1 <> OutOfFuel
  /\ (forall fuel, (Z.to_nat raw_size <= fuel)%nat ->
        pmt_decode_group_fuel raw raw_size size fuel dec
        = pmt_decode_group raw raw_size dec size)
  /\ (forall fuel,
        (decode_passes raw raw_size size fuel (mk_dstate 0 0 dec) <= Z.to_nat raw_size)%nat)
  /\ (forall s s', decode_step raw raw_size size s = Ok s' ->
        exists c, load raw (src s) = Ok c /\ 0 <= c
          /\ src s' = (if Z.land c 128 =? 0 then src s + 1 + c else src s + 2)
          /\ src s + 1 <= src s').
Proof.
  split; [|split; [|split]].
  - apply pmt_decode_group_not_out_of_fuel.
  - intros fuel Hfuel. unfold pmt_decode_group, pmt_decode_group_fuel.
    rewrite (decode_loop_fuel raw raw_size size fuel (Z.to_nat raw_size)); simpl; done || lia.
  - intros fuel.
    pose proof (decode_passes_bound raw raw_size size fuel (mk_dstate 0 0 dec)) as H.
    simpl in H. by rewrite Z.sub_0_r in H.
  - intros s s' Hstep. pose proof (decode_step_advances _ _ _ _ _ Hstep) as Hadv.
    destruct (decode_step_inv _ _ _ _ _ Hstep) as (c & Hc & Hcase).
    exists c. destruct (load_inv _ _ _ Hc) as (_ & Hrange & _).
    repeat split; try done; try lia.
    destruct Hcase as [(Hbit & _ & _ & _ & _ & -> & _)|(Hbit & _ & _ & -> & _)].
    + by destruct (Z.eqb_spec (Z.land c 128) 0).
    + by rewrite Hbit.
Qed.

(** ** The size check after the loop *)

(** C3.  When the loop has consumed the raw input without an overrun, that
    is when it is left with its condition false in some state [s], the call
    reports the size mismatch if and only if the number of bytes written,
    [dst s], differs from 62160, and a successful call returns 62160 and
    nothing else. *)
Theorem pmt_decode_group_size_check (raw : list Z) (raw_size : Z) (dec : list Z) (s : dstate) :
  decode_run raw raw_size PMT_DECODED_GROUP_BYTES (mk_dstate 0 0 dec) = (s, Ok tt) ->
  let r := (pmt_decode_group raw raw_size dec PMT_DECODED_GROUP_BYTES).1 in
  (r = Err SizeMismatch <-> dst s <> 62160)
  /\ (r = Ok 62160 <-> dst s = 62160)
  /\ (forall n, r = Ok n -> n = 62160)
  /\ (r = Ok 62160 \/ r = Err SizeMismatch).
Proof.
  intros Hrun r. subst r. rewrite pmt_decode_group_run, Hrun. simpl.
  unfold decode_finish. change PMT_DECODED_GROUP_BYTES with 62160.
  destruct (Z.eqb_spec (dst s) 62160) as [->|Hne]; simpl.
  - repeat split; try done; try congruence. by left.
  - repeat split; try done; try congruence. by right.
Qed.

Lemma pmt_decode_group_size_check_witness :
  let r := (pmt_decode_group [131; 7] 2 [0; 0; 0] PMT_DECODED_GROUP_BYTES).1 in
  (r = Err SizeMismatch <-> dst (mk_dstate 2 3 [7; 7; 7]) <> 62160)
  /\ (r = Ok 62160 <-> dst (mk_dstate 2 3 [7; 7; 7]) = 62160)
  /\ (forall n, r = Ok n -> n = 62160)
  /\ (r = Ok 62160 \/ r = Err SizeMismatch).
Proof.
  apply (pmt_decode_group_size_check [131; 7] 2 [0; 0; 0] (mk_dstate 2 3 [7; 7; 7])).
  reflexivity.
Defined.

(** ** Output overrun *)

(** C6.  Whenever the loop reaches an opcode (a run of [c & 0x7f] bytes, or
    a literal copy of [c] bytes) whose output would end beyond the capacity
    of the decoded buffer (62160 in the one call of the program), the pass
    fails with the output overrun before it writes anything: the call
    reports that failure, and the decoded buffer is returned exactly as the
    earlier opcodes left it. *)
Theorem pmt_decode_group_output_overrun
    (raw : list Z) (raw_size : Z) (dec : list Z) (size : Z) (s : dstate) (c : Z) :
  decoding raw raw_size size (mk_dstate 0 0 dec) s ->
  src s < raw_size ->
  load raw (src s) = Ok c ->
  dst s + (if Z.land c 128 =? 0 then c else Z.land c 127) > size ->
  decode_step raw raw_size size s = Err OutputOverrun
  /\ pmt_decode_group raw raw_size dec size = (Err OutputOverrun, out s).
Proof.
  intros Hdec Hlt Hc Hover.
  pose proof (decode_step_output_overrun _ _ _ _ _ Hlt Hc Hover) as Hstep.
  split; [done|].
  rewrite pmt_decode_group_run, (decoding_run _ _ _ _ _ Hdec), decode_run_unfold, Hstep.
  by destruct (Z.ltb_spec (src s) raw_size); [|lia].
Qed.

Lemma pmt_decode_group_output_overrun_witness :
  decode_step [130; 7; 132; 9] 4 5 (mk_dstate 2 2 [7; 7; 0; 0; 0]) = Err OutputOverrun
  /\ pmt_decode_group [130; 7; 132; 9] 4 [0; 0; 0; 0; 0] 5
     = (Err OutputOverrun, [7; 7; 0; 0; 0]).
Proof.
  apply (pmt_decode_group_output_overrun [130; 7; 132; 9] 4 [0; 0; 0; 0; 0] 5
           (mk_dstate 2 2 [7; 7; 0; 0; 0]) 132).
  - eapply decoding_pass; [apply decoding_start | simpl; lia | reflexivity].
  - simpl; lia.
  - reflexivity.
  - reflexivity.
Defined.

(** ** Reads beyond the declared input *)

(** The input check of the decoder is dead code: no call reports the input
    overrun. *)
Lemma pmt_decode_group_never_input_overrun raw raw_size dec size :
  (pmt_decode_group raw raw_size dec size).1 <> Err InputOverrun.
Proof.
  rewrite pmt_decode_group_run.
  destruct (decode_run raw raw_size size (mk_dstate 0 0 dec)) as [s r] eqn:Hrun.
  apply decode_run_inv in Hrun as [_ Hr]. destruct r as [[]|e| |]; simpl; try done.
  - unfold decode_finish. by case_match.
  - destruct Hr as [Hlt Hstep]. apply decode_step_err in Hstep; [|done]. congruence.
Qed.

(** C1.  A group of 979 declared bytes: 489 runs of 127 bytes, then the
    control byte of a literal copy of 57 bytes, whose 57 literal bytes lie
    beyond the declared size.  The decoder reports no input overrun: it
    copies the 57 cells that follow the declared input in the 62160-byte
    scratch array, whatever they hold ([stale]), and returns 62160.  Shown
    are the return value and the last 57 decoded cells.  One byte of
    declared input whose run value is missing is decoded the same way. *)
Theorem pmt_decode_group_reads_past_input :
  let group := mjoin (replicate 489 [255; 17]) ++ [57] in
  let dec := replicate (Z.to_nat 62160) 0 in
  let decoded (stale : Z) :=
    let '(r, o) := pmt_decode_group (group ++ replicate (Z.to_nat 61181) stale) 979 dec
                     PMT_DECODED_GROUP_BYTES in
    (r, drop (Z.to_nat 62103) o) in
  length group = 979%nat
  /\ decoded 1 = (Ok 62160, replicate 57 1)
  /\ decoded 2 = (Ok 62160, replicate 57 2)
  /\ pmt_decode_group [129; 85] 1 [0; 0] 2 = (Err SizeMismatch, [85; 0]).
Proof.
  intros group dec decoded.
  split; [reflexivity|]. split; [|split; [|reflexivity]].
  - vm_cast_no_check (eq_refl (Ok 62160, replicate 57 1)).
  - vm_cast_no_check (eq_refl (Ok 62160, replicate 57 2)).
Qed.

(** ** The decoder on a well-formed opcode stream *)

Lemma run_control_byte n :
  0 <= n <= 127 -> Z.land (128 + n) 128 = 128 /\ Z.land (128 + n) 127 = n.
Proof.
  intros Hn.
  pose proof (below_forallb
    (fun n => (Z.land (128 + n) 128 =? 128) && (Z.land (128 + n) 127 =? n)) 128 eq_refl n) as H.
  simpl in H. specialize (H ltac:(lia)). zbool; done.
Qed.

Lemma literal_control_byte n : 0 <= n <= 127 -> Z.land n 128 = 0.
Proof.
  intros Hn.
  pose proof (below_forallb (fun n => Z.land n 128 =? 0) 128 eq_refl n) as H.
  simpl in H. specialize (H ltac:(lia)). zbool; done.
Qed.

Lemma encode_cons op ops : encode (op :: ops) = encode_opcode op ++ encode ops.
Proof. done. Qed.

Lemma encode_opcode_nonempty op : (0 < length (encode_opcode op))%nat.
Proof. destruct op; simpl; lia. Qed.

(** The declared size ends in the last opcode exactly when it takes in every
    control byte, one opcode after the other, and nothing is left of it
    behind the last opcode. *)
Lemma ends_in_last_opcode_cons op ops raw_size :
  ends_in_last_opcode (op :: ops) raw_size
  <-> 0 < raw_size
      /\ ends_in_last_opcode ops (raw_size - Z.of_nat (length (encode_opcode op))).
Proof.
  destruct ops as [|op2 ops].
  - unfold ends_in_last_opcode. cbn [removelast].
    rewrite encode_cons. unfold encode at 1 2. cbn [fmap list_fmap mjoin list_join].
    rewrite app_nil_r. simpl length at 1. lia.
  - unfold ends_in_last_opcode.
    change (removelast (op :: op2 :: ops)) with (op :: removelast (op2 :: ops)).
    rewrite !(encode_cons op), !length_app. lia.
Qed.

Lemma ends_in_last_opcode_encode ops :
  ends_in_last_opcode ops (Z.of_nat (length (encode ops))).
Proof.
  induction ops as [|op ops IH]; [simpl; lia|].
  apply ends_in_last_opcode_cons. rewrite encode_cons, length_app.
  pose proof (encode_opcode_nonempty op). split; [lia|].
  by replace (Z.of_nat (length (encode_opcode op) + length (encode ops))
              - Z.of_nat (length (encode_opcode op)))
    with (Z.of_nat (length (encode ops))) by lia.
Qed.

Section OpcodeStream.
Variables (rest dec : list Z) (size : Z).
Hypothesis size_fits : size <= Z.of_nat (length dec).

Lemma written_buffer_write w mid :
  (length w + length mid <= length dec)%nat ->
  take (length w) (written_buffer dec w) ++ mid
    ++ drop (length w + length mid) (written_buffer dec w)
  = written_buffer dec (w ++ mid).
Proof.
  intros Hfit. unfold written_buffer.
  rewrite take_app_length, drop_app_add, drop_drop, length_app. by rewrite <- app_assoc.
Qed.

Lemma length_written_buffer w :
  (length w <= length dec)%nat -> length (written_buffer dec w) = length dec.
Proof. intros. unfold written_buffer. rewrite length_app, length_drop. lia. Qed.

(** One pass over an opcode whose output fits. *)
Lemma decode_step_opcode raw raw_size s done op tail w :
  raw = done ++ encode_opcode op ++ tail ->
  opcode_ok op ->
  src s = Z.of_nat (length done) -> src s < raw_size ->
  dst s = Z.of_nat (length w) -> out s = written_buffer dec w ->
  Z.of_nat (length w + length (opcode_output op)) <= size ->
  decode_step raw raw_size size s
  = Ok (mk_dstate (Z.of_nat (length (done ++ encode_opcode op)))
          (Z.of_nat (length (w ++ opcode_output op)))
          (written_buffer dec (w ++ opcode_output op))).
Proof.
  intros -> Hok Hsrc Hlt Hdst Hout Hfit. unfold decode_step.
  destruct op as [n v|bytes]; simpl in *.
  - destruct Hok as [Hn Hv]. rewrite length_replicate in Hfit.
    destruct (load_in_bounds (done ++ (128 + n) :: v :: tail) (src s)) as (b & Hb & ->).
    { rewrite length_app. simpl. lia. }
    rewrite Hsrc, Nat2Z.id, list_lookup_middle in Hb by done. injection Hb as <-.
    rewrite (u8_small (128 + n)) by lia. simpl.
    destruct (run_control_byte n Hn) as [-> ->]. simpl.
    rewrite (u8_small n) by lia. rewrite !Z.gtb_ltb.
    destruct (Z.ltb_spec raw_size (src s + 1)); [lia|].
    destruct (Z.ltb_spec size (dst s + n)); [lia|].
    destruct (load_in_bounds (done ++ (128 + n) :: v :: tail) (src s + 1)) as (b & Hb & ->).
    { rewrite length_app. simpl. lia. }
    rewrite (cons_middle (128 + n)), app_assoc in Hb.
    rewrite list_lookup_middle in Hb by (rewrite length_app; simpl; lia).
    injection Hb as <-. simpl.
    rewrite memset_in_bounds by (rewrite ?Hout, ?length_written_buffer; lia).
    rewrite Hout, Hdst, (u8_small v) by lia. simpl.
    f_equal. f_equal.
    + rewrite length_app. simpl. lia.
    + rewrite length_app, length_replicate. lia.
    + rewrite <- written_buffer_write by (rewrite length_replicate; lia).
      rewrite length_replicate, Nat2Z.id, (u8_small v) by lia. do 3 f_equal. lia.
  - destruct (load_in_bounds (done ++ Z.of_nat (length bytes) :: bytes ++ tail) (src s))
      as (b & Hb & ->).
    { rewrite length_app. simpl. lia. }
    rewrite Hsrc, Nat2Z.id, list_lookup_middle in Hb by done. injection Hb as <-.
    rewrite (u8_small (Z.of_nat (length bytes))) by lia. simpl.
    rewrite literal_control_byte by lia. simpl. rewrite !Z.gtb_ltb.
    destruct (Z.ltb_spec raw_size (src s + 1)); [lia|].
    destruct (Z.ltb_spec size (dst s + Z.of_nat (length bytes))); [lia|].
    rewrite memcpy_in_bounds by
      (rewrite ?Hout, ?length_written_buffer, ?length_app, ?length_cons, ?length_app; lia).
    rewrite Hout, Hdst. simpl.
    f_equal. f_equal.
    + rewrite length_app. simpl. lia.
    + rewrite length_app. lia.
    + rewrite <- written_buffer_write by lia.
      rewrite !Nat2Z.id. f_equal. f_equal.
      * rewrite Hsrc. replace (Z.to_nat (Z.of_nat (length done) + 1)) with (length done + 1)%nat by lia.
        rewrite (cons_middle (Z.of_nat (length bytes))), app_assoc.
        rewrite drop_app_length' by (rewrite length_app; simpl; lia).
        by rewrite take_app_length.
      * f_equal. lia.
Qed.

(** One pass over an opcode whose output does not fit. *)
Lemma decode_step_opcode_overrun raw raw_size s done op tail (w : list Z) :
  raw = done ++ encode_opcode op ++ tail ->
  opcode_ok op ->
  src s = Z.of_nat (length done) -> src s < raw_size ->
  dst s = Z.of_nat (length w) ->
  size < Z.of_nat (length w + length (opcode_output op)) ->
  decode_step raw raw_size size s = Err OutputOverrun.
Proof.
  intros -> Hok Hsrc Hlt Hdst Hover.
  destruct op as [n v|bytes]; simpl in *.
  - destruct Hok as [Hn Hv]. rewrite length_replicate in Hover.
    apply (decode_step_output_overrun _ _ _ _ (128 + n)); [done| |].
    + destruct (load_in_bounds (done ++ (128 + n) :: v :: tail) (src s)) as (b & Hb & ->).
      { rewrite length_app. simpl. lia. }
      rewrite Hsrc, Nat2Z.id, list_lookup_middle in Hb by done. injection Hb as <-.
      by rewrite u8_small by lia.
    + destruct (run_control_byte n Hn) as [-> ->]. simpl. lia.
  - apply (decode_step_output_overrun _ _ _ _ (Z.of_nat (length bytes))); [done| |].
    + destruct (load_in_bounds (done ++ Z.of_nat (length bytes) :: bytes ++ tail) (src s))
        as (b & Hb & ->).
      { rewrite length_app. simpl. lia. }
      rewrite Hsrc, Nat2Z.id, list_lookup_middle in Hb by done. injection Hb as <-.
      by rewrite u8_small by lia.
    + rewrite literal_control_byte by lia. simpl. lia.
Qed.

(** The loop over the opcodes that are left, for a declared size that ends
    in the last of them. *)
Lemma decode_run_opcodes ops : forall done w s raw raw_size,
  raw = done ++ encode ops ++ rest ->
  ends_in_last_opcode ops (raw_size - Z.of_nat (length done)) ->
  Forall opcode_ok ops ->
  src s = Z.of_nat (length done) -> dst s = Z.of_nat (length w) ->
  out s = written_buffer dec w ->
  (let '(s', r) := decode_run raw raw_size size s in
   (do _ <- r; decode_finish size s', out s'))
  = (let '(r, w') := spec_decode size ops w in (r, written_buffer dec w')).
Proof.
  induction ops as [|op ops IH]; intros done w s raw raw_size Hraw Hsize Hok Hsrc Hdst Hout;
    rewrite decode_run_unfold.
  - simpl in *.
    destruct (Z.ltb_spec (src s) raw_size); [lia|]. simpl.
    unfold decode_finish. rewrite Hdst, Hout.
    by destruct (Z.eqb_spec (Z.of_nat (length w)) size) as [->|].
  - apply Forall_cons in Hok as [Hop Hok].
    apply ends_in_last_opcode_cons in Hsize as [Hctl Hsize].
    rewrite encode_cons in Hraw.
    destruct (Z.ltb_spec (src s) raw_size) as [Hlt|]; [|lia].
    simpl. rewrite Z.gtb_ltb.
    destruct (Z.ltb_spec size (Z.of_nat (length w + length (opcode_output op)))) as [Hover|Hfit].
    + rewrite (decode_step_opcode_overrun raw raw_size s done op (encode ops ++ rest) w);
        try done; [by rewrite Hout|by rewrite Hraw, <- app_assoc].
    + rewrite (decode_step_opcode raw raw_size s done op (encode ops ++ rest) w);
        try done; [|by rewrite Hraw, <- app_assoc].
      apply (IH (done ++ encode_opcode op) (w ++ opcode_output op)); try done.
      * by rewrite Hraw, <- !app_assoc.
      * rewrite length_app.
        by replace (raw_size - Z.of_nat (length done + length (encode_opcode op)))
          with (raw_size - Z.of_nat (length done) - Z.of_nat (length (encode_opcode op)))
          by lia.
Qed.

End OpcodeStream.

(** The reference decoder when everything fits. *)
Lemma spec_decode_fits size ops : forall w,
  Z.of_nat (length (w ++ ops ≫= opcode_output)) <= size ->
  spec_decode size ops w
  = (if Z.of_nat (length (w ++ ops ≫= opcode_output)) =? size
     then Ok size else Err SizeMismatch,
     w ++ ops ≫= opcode_output).
Proof.
  induction ops as [|op ops IH]; intros w; simpl.
  - by rewrite app_nil_r.
  - rewrite app_assoc. intros Hfit. rewrite Z.gtb_ltb.
    destruct (Z.ltb_spec size (Z.of_nat (length w + length (opcode_output op)))) as [Hover|_].
    + rewrite !length_app in Hfit. lia.
    + by apply IH.
Qed.

(** The call on an opcode stream is the reference decoder on the opcodes,
    wherever in the last opcode the declared input ends. *)
Lemma pmt_decode_group_stream ops rest dec raw_size size :
  Forall opcode_ok ops ->
  ends_in_last_opcode ops raw_size ->
  size <= Z.of_nat (length dec) ->
  pmt_decode_group (encode ops ++ rest) raw_size dec size
  = (let '(e, w) := spec_decode size ops [] in (e, written_buffer dec w)).
Proof.
  intros Hok Hends Hsize. rewrite pmt_decode_group_run.
  apply (decode_run_opcodes rest dec size Hsize ops [] []); try done.
  simpl. by rewrite Z.sub_0_r.
Qed.

(** *** A raw buffer that ends earlier *)

(** What the call reads inside a buffer it reads inside every longer one:
    unless it leaves the buffer, it does not depend on what lies behind. *)
Lemma load_app buf pad i : load buf i <> Undef -> load (buf ++ pad) i = load buf i.
Proof.
  unfold load. destruct (0 <=? i); [|done].
  destruct (buf !! Z.to_nat i) as [b|] eqn:Hb; [|done].
  by rewrite (lookup_app_l_Some _ _ _ _ Hb).
Qed.

Lemma memcpy_app_src dst0 doff src0 pad soff n :
  memcpy dst0 doff src0 soff n <> Undef ->
  memcpy dst0 doff (src0 ++ pad) soff n = memcpy dst0 doff src0 soff n.
Proof.
  intros H. destruct (memcpy dst0 doff src0 soff n) as [o| | |] eqn:Hm; try done.
  - apply memcpy_inv in Hm as (? & ? & ? & ? & ? & ->).
    rewrite memcpy_in_bounds by (rewrite ?length_app; lia).
    rewrite drop_app_le by lia. by rewrite take_app_le by (rewrite length_drop; lia).
  - by destruct (memcpy_not_err _ _ _ _ _ _ Hm).
  - unfold memcpy in Hm. by case_match.
Qed.

Lemma decode_step_app raw pad raw_size size s :
  decode_step raw raw_size size s <> Undef ->
  decode_step (raw ++ pad) raw_size size s = decode_step raw raw_size size s.
Proof.
  unfold decode_step. intros H.
  rewrite (load_app raw pad (src s)) by (intros Hu; by rewrite Hu in H).
  destruct (load raw (src s)) as [c| | |]; try done. cbn [bind] in *.
  destruct (negb (Z.land c 128 =? 0)).
  - destruct (src s + 1 >? raw_size); [done|].
    destruct (dst s + u8 (Z.land c 127) >? size); [done|].
    by rewrite (load_app raw pad (src s + 1)) by (intros Hu; by rewrite Hu in H).
  - destruct (src s + 1 >? raw_size); [done|].
    destruct (dst s + c >? size); [done|].
    by rewrite (memcpy_app_src (out s) (dst s) raw pad) by (intros Hu; by rewrite Hu in H).
Qed.

Lemma decode_loop_app raw pad raw_size size fuel : forall s,
  (decode_loop raw raw_size size fuel s).2 <> Undef ->
  decode_loop (raw ++ pad) raw_size size fuel s = decode_loop raw raw_size size fuel s.
Proof.
  induction fuel as [|fuel IH]; intros s; cbn [decode_loop];
    destruct (src s <? raw_size); try done.
  intros H.
  rewrite decode_step_app by (intros Hu; by rewrite Hu in H).
  destruct (decode_step raw raw_size size s) as [s'| | |]; try done. by apply IH.
Qed.

Lemma pmt_decode_group_app raw pad raw_size dec size :
  (pmt_decode_group raw raw_size dec size).1 <> Undef ->
  pmt_decode_group (raw ++ pad) raw_size dec size = pmt_decode_group raw raw_size dec size.
Proof.
  unfold pmt_decode_group, pmt_decode_group_fuel. intros H.
  rewrite decode_loop_app; [done|].
  destruct (decode_loop raw raw_size size (Z.to_nat raw_size) (mk_dstate 0 0 dec)) as [s r].
  intros Hu. simpl in Hu. by rewrite Hu in H.
Qed.

(** C2.  A raw group that is a sequence of opcodes, each a control byte
    followed by its operand (the run value, or the literal bytes), is
    decoded opcode by opcode until the declared input is used up: a control
    byte with the high bit set writes [n] copies of the next input byte,
    [n] being its low 7 bits, and a control byte [n] with the high bit clear
    copies the next [n] input bytes.  This holds for every declared input
    size that takes in the control byte of the last opcode, also one that
    ends before the operand of that opcode does: the operand is then read
    from behind the declared input.  The call does what the reference
    decoder does; in particular, when the outputs of all opcodes fit, the
    decoded buffer starts with their concatenation.  On a raw buffer that
    ends before the opcodes do, the call does the same unless it reads
    outside the buffer. *)
Theorem pmt_decode_group_opcodes (ops : list opcode) (rest dec : list Z)
    (raw_size size : Z) :
  Forall opcode_ok ops ->
  ends_in_last_opcode ops raw_size ->
  size <= Z.of_nat (length dec) ->
  let r := pmt_decode_group (encode ops ++ rest) raw_size dec size in
  let output := ops ≫= opcode_output in
  r = (let '(e, w) := spec_decode size ops [] in (e, written_buffer dec w))
  /\ (Z.of_nat (length output) <= size ->
      r = (if Z.of_nat (length output) =? size then Ok size else Err SizeMismatch,
           output ++ drop (length output) dec))
  /\ (forall raw, raw `prefix_of` encode ops ++ rest ->
      let r' := pmt_decode_group raw raw_size dec size in
      r'.1 = Undef \/ r' = r).
Proof.
  intros Hok Hends Hsize r output.
  assert (r = (let '(e, w) := spec_decode size ops [] in (e, written_buffer dec w))) as Hr.
  { subst r. by apply pmt_decode_group_stream. }
  split; [done|]. split.
  - intros Hfit. rewrite Hr. by rewrite (spec_decode_fits size ops []).
  - intros raw [pad Hpad] r'.
    assert (r'.1 = Undef \/ r'.1 <> Undef) as [|Hdef]
      by (destruct (r'.1); (by left) || (by right)); [by left|right].
    subst r r'. by rewrite Hpad, pmt_decode_group_app.
Qed.

Lemma pmt_decode_group_opcodes_witness :
  let r := pmt_decode_group [131; 7; 0; 128; 5; 2; 8; 9; 77] 6 [0; 0; 0; 0; 0; 0] 5 in
  r = (Ok 5, [7; 7; 7; 8; 9; 0])
  /\ (5 <= 5 -> r = (Ok 5, [7; 7; 7; 8; 9; 0]))
  /\ (let r' := pmt_decode_group [131; 7; 0; 128; 5; 2; 8] 6 [0; 0; 0; 0; 0; 0] 5 in
      r'.1 = Undef \/ r' = r).
Proof.
  destruct (pmt_decode_group_opcodes [Run 3 7; Literal []; Run 0 5; Literal [8; 9]]
              [77] [0; 0; 0; 0; 0; 0] 6 5) as (Hr & Hfit & Hcut).
  - repeat constructor; simpl; lia.
  - simpl; lia.
  - simpl; lia.
  - split; [exact Hr|]. split; [exact Hfit|]. apply Hcut. by exists [9; 77].
Defined.

(** A declared size that ends behind the control byte of a literal: the two
    bytes are copied from behind the declared input.  When the buffer ends
    there too, the copy leaves the buffer, unless the output check stops the
    opcode first. *)
Example decode_literal_behind_declared_input :
  pmt_decode_group [131; 7; 2; 8; 9] 3 [0; 0; 0; 0; 0; 0] 5 = (Ok 5, [7; 7; 7; 8; 9; 0]).
Proof. reflexivity. Qed.

Example decode_literal_behind_buffer :
  (pmt_decode_group [131; 7; 2; 8] 4 [0; 0; 0; 0; 0; 0] 5).1 = Undef.
Proof. reflexivity. Qed.

Example decode_literal_too_long :
  pmt_decode_group [57] 1 [0; 0; 0; 0; 0; 0] 5 = (Err OutputOverrun, [0; 0; 0; 0; 0; 0]).
Proof. reflexivity. Qed.

(** *** Every raw input is an opcode stream *)

(** A control byte with the high bit clear is a count up to 127; one with
    the high bit set is 128 plus its low 7 bits. *)
Lemma control_byte_cases n :
  0 <= n < 256 ->
  if Z.land n 128 =? 0 then n <= 127
  else 0 <= Z.land n 127 <= 127 /\ 128 + Z.land n 127 = n.
Proof.
  intros Hn.
  pose proof (below_forallb
    (fun n => if Z.land n 128 =? 0 then n <=? 127
              else (0 <=? Z.land n 127) && (Z.land n 127 <=? 127)
                   && (128 + Z.land n 127 =? n)) 256 eq_refl n Hn) as H.
  simpl in H. destruct (Z.land n 128 =? 0); [lia|].
  apply andb_prop in H as [H H3]. apply andb_prop in H as [H1 H2]. lia.
Qed.

(** The opcodes read from a buffer of bytes are encoded at its start, and
    the declared size ends in the last of them. *)
Lemma read_opcodes_stream fuel : forall raw raw_size ops,
  Forall (fun b => 0 <= b < 256) raw ->
  raw_size <= Z.of_nat fuel ->
  read_opcodes fuel raw raw_size = Some ops ->
  Forall opcode_ok ops /\ ends_in_last_opcode ops raw_size
  /\ exists rest, raw = encode ops ++ rest.
Proof.
  induction fuel as [|fuel IH]; intros raw raw_size ops Hbytes Hfuel Hread;
    cbn [read_opcodes] in Hread.
  - injection Hread as <-. split; [constructor|]. split; [simpl; lia|by exists raw].
  - destruct (Z.leb_spec raw_size 0) as [Hle|Hgt].
    { injection Hread as <-. split; [constructor|]. split; [simpl; lia|by exists raw]. }
    destruct raw as [|n operands]; [done|].
    apply Forall_cons in Hbytes as [Hn Hbytes].
    pose proof (control_byte_cases n Hn) as Hcase.
    destruct (Z.land n 128 =? 0).
    + destruct (Z.leb_spec n (Z.of_nat (length operands))) as [Hlen|]; [|done].
      destruct (read_opcodes fuel (drop (Z.to_nat n) operands) (raw_size - 1 - n))
        as [ops'|] eqn:Hops; [|done].
      injection Hread as <-.
      destruct (IH (drop (Z.to_nat n) operands) (raw_size - 1 - n) ops')
        as (Hok & Hends & rest & Hrest); [by apply Forall_drop|lia|done|].
      assert (length (take (Z.to_nat n) operands) = Z.to_nat n) as Htake
        by (rewrite length_take; lia).
      split; [|split].
      * constructor; [|done]. simpl. rewrite Htake. lia.
      * apply ends_in_last_opcode_cons. split; [done|].
        simpl. rewrite Htake.
        by replace (raw_size - Z.of_nat (S (Z.to_nat n))) with (raw_size - 1 - n) by lia.
      * exists rest. rewrite encode_cons. simpl. rewrite Htake, <- app_assoc, <- Hrest.
        rewrite take_drop. f_equal. lia.
    + destruct operands as [|v tail]; [done|].
      destruct (read_opcodes fuel tail (raw_size - 2)) as [ops'|] eqn:Hops; [|done].
      injection Hread as <-.
      apply Forall_cons in Hbytes as [Hv Hbytes].
      destruct (IH tail (raw_size - 2) ops') as (Hok & Hends & rest & Hrest); [done|lia|done|].
      split; [|split].
      * constructor; [|done]. simpl. lia.
      * apply ends_in_last_opcode_cons. split; [done|]. by simpl.
      * exists rest. rewrite encode_cons. simpl. rewrite <- Hrest. f_equal. lia.
Qed.

(** With 127 bytes behind the declared input, no operand is cut off by the
    end of the buffer. *)
Lemma read_opcodes_total fuel : forall raw raw_size,
  Forall (fun b => 0 <= b < 256) raw ->
  raw_size + 127 <= Z.of_nat (length raw) ->
  is_Some (read_opcodes fuel raw raw_size).
Proof.
  induction fuel as [|fuel IH]; intros raw raw_size Hbytes Hslack; cbn [read_opcodes]; [done|].
  destruct (Z.leb_spec raw_size 0) as [Hle|Hgt]; [done|].
  destruct raw as [|n operands]; [simpl in Hslack; lia|].
  apply Forall_cons in Hbytes as [Hn Hbytes].
  pose proof (control_byte_cases n Hn) as Hcase. simpl in Hslack.
  destruct (Z.land n 128 =? 0).
  - destruct (Z.leb_spec n (Z.of_nat (length operands))) as [Hlen|]; [|lia].
    destruct (IH (drop (Z.to_nat n) operands) (raw_size - 1 - n)) as [ops' ->]; [| |done].
    + by apply Forall_drop.
    + rewrite length_drop. lia.
  - destruct operands as [|v tail]; [simpl in Hslack; lia|].
    apply Forall_cons in Hbytes as [Hv Hbytes]. simpl in Hslack.
    destruct (IH tail (raw_size - 2)) as [ops' ->]; [done|lia|done].
Qed.

Lemma opcodes_of_total raw raw_size :
  Forall (fun b => 0 <= b < 256) raw ->
  raw_size + 127 <= Z.of_nat (length raw) ->
  is_Some (opcodes_of raw raw_size).
Proof. apply read_opcodes_total. Qed.

(** Every buffer of bytes starts an opcode stream in whose last opcode the
    declared size ends; the stream may go on behind the end of the buffer. *)
Lemma raw_input_stream raw raw_size :
  Forall (fun b => 0 <= b < 256) raw ->
  exists ops rest,
    Forall opcode_ok ops /\ ends_in_last_opcode ops raw_size
    /\ raw `prefix_of` encode ops ++ rest.
Proof.
  intros Hbytes. set (pad := replicate (Z.to_nat (raw_size + 127)) 0).
  assert (Forall (fun b => 0 <= b < 256) (raw ++ pad)) as Hpadded.
  { apply Forall_app. split; [done|]. apply Forall_replicate. lia. }
  destruct (opcodes_of_total (raw ++ pad) raw_size Hpadded) as [ops Hops].
  { unfold pad. rewrite length_app, length_replicate. lia. }
  destruct (read_opcodes_stream (Z.to_nat raw_size) (raw ++ pad) raw_size ops)
    as (Hok & Hends & rest & Hrest); [done|lia|done|].
  exists ops, rest. split; [done|]. split; [done|]. exists pad. by rewrite Hrest.
Qed.

(** So the call on any buffer of bytes is the reference decoder on the
    opcodes that the declared input starts: exactly so when the buffer holds
    all their operands, and unless it reads outside the buffer otherwise. *)
Lemma pmt_decode_group_read_opcodes raw raw_size dec size ops :
  Forall (fun b => 0 <= b < 256) raw ->
  size <= Z.of_nat (length dec) ->
  opcodes_of raw raw_size = Some ops ->
  pmt_decode_group raw raw_size dec size
  = (let '(e, w) := spec_decode size ops [] in (e, written_buffer dec w)).
Proof.
  intros Hbytes Hsize Hops.
  destruct (read_opcodes_stream (Z.to_nat raw_size) raw raw_size ops)
    as (Hok & Hends & rest & ->); [done|lia|done|].
  by apply pmt_decode_group_stream.
Qed.

Lemma pmt_decode_group_every_input raw raw_size dec size :
  Forall (fun b => 0 <= b < 256) raw ->
  size <= Z.of_nat (length dec) ->
  let r := pmt_decode_group raw raw_size dec size in
  r.1 = Undef
  \/ exists ops rest,
       Forall opcode_ok ops /\ ends_in_last_opcode ops raw_size
       /\ raw `prefix_of` encode ops ++ rest
       /\ r = (let '(e, w) := spec_decode size ops [] in (e, written_buffer dec w)).
Proof.
  intros Hbytes Hsize r.
  assert (r.1 = Undef \/ r.1 <> Undef) as [|Hdef]
    by (destruct (r.1); (by left) || (by right)); [by left|right].
  destruct (raw_input_stream raw raw_size Hbytes) as (ops & rest & Hok & Hends & Hprefix).
  exists ops, rest. split; [done|]. split; [done|]. split; [done|].
  destruct Hprefix as [pad Hpad]. subst r.
  rewrite <- (pmt_decode_group_app raw pad) by done. rewrite <- Hpad.
  by apply pmt_decode_group_stream.
Qed.

(** ** The group reader *)

Lemma le16_range bytes : 0 <= le16 bytes < 65536.
Proof.
  unfold le16. pose proof (u8_range (bytes !!! 0%nat)). pose proof (u8_range (bytes !!! 1%nat)).
  lia.
Qed.

(** The four ways [pmt_read_group] ends. *)
Lemma pmt_read_group_spec (fh buf : list Z) (buf_size : Z) :
  buf_size <= Z.of_nat (length buf) ->
  let r := pmt_read_group fh buf buf_size in
  let declared := le16 (take 2 fh) in
  let payload := drop 2 fh in
  ((length fh < 2)%nat -> r = (Err TruncatedInput, [], buf))
  /\ ((2 <= length fh)%nat -> buf_size < declared ->
      r = (Err BufferTooSmall, payload, buf))
  /\ ((2 <= length fh)%nat -> declared <= buf_size ->
      Z.of_nat (length payload) < declared ->
      r = (Err TruncatedInput, [], payload ++ drop (length payload) buf))
  /\ ((2 <= length fh)%nat -> declared <= buf_size ->
      declared <= Z.of_nat (length payload) ->
      r = (Ok declared, drop (Z.to_nat declared) payload,
           take (Z.to_nat declared) payload ++ drop (Z.to_nat declared) buf)
      /\ Z.of_nat (length (take (Z.to_nat declared) payload)) = declared).
Proof.
  intros Hcap r declared payload. subst r. unfold pmt_read_group.
  fold declared. fold payload.
  pose proof (le16_range (take 2 fh)) as Hdecl. fold declared in Hdecl.
  rewrite length_take, Z.gtb_ltb.
  assert (length payload = length fh - 2)%nat as Hpayload
    by (subst payload; apply length_drop).
  split; [|split; [|split]].
  - intros Hshort. rewrite Nat.min_r by lia.
    destruct (Z.eqb_spec (Z.of_nat (length fh)) 2); [lia|]. simpl.
    subst payload. by rewrite drop_ge by lia.
  - intros Hlen Hbig. rewrite Nat.min_l by lia. simpl.
    by destruct (Z.ltb_spec buf_size declared); [|lia].
  - intros Hlen Hfit Hshort. rewrite Nat.min_l by lia. simpl.
    destruct (Z.ltb_spec buf_size declared); [lia|].
    rewrite length_take, Nat.min_r by lia.
    rewrite memcpy_in_bounds by (rewrite ?length_take; lia).
    destruct (Z.eqb_spec (Z.of_nat (length payload)) declared); [lia|]. simpl.
    rewrite Nat2Z.id, drop_0, Z.add_0_l, Nat2Z.id.
    rewrite !take_ge by (rewrite ?length_take; lia).
    by rewrite drop_ge by lia.
  - intros Hlen Hfit Henough. rewrite Nat.min_l by lia. simpl.
    destruct (Z.ltb_spec buf_size declared); [lia|].
    rewrite length_take, Nat.min_l by lia.
    rewrite memcpy_in_bounds by (rewrite ?length_take; lia).
    rewrite Z2Nat.id by lia.
    destruct (Z.eqb_spec declared declared); [|done]. simpl.
    split; [|lia]. by rewrite drop_0, Z.add_0_l, take_take, Nat.min_id.
Qed.

(** C7, as the code has it.  The length prefix is checked against the
    capacity before the payload is read, so a declared length beyond the
    capacity is reported as such whether or not the payload is there.  With
    fewer than 2 bytes for the prefix the call fails with the truncated
    input; with a prefix whose value exceeds the capacity it fails with the
    buffer too small; with a prefix within the capacity and fewer payload
    bytes than declared it fails with the truncated input; otherwise it
    returns the declared length, having placed exactly that many bytes at
    the start of the destination and consumed prefix and payload. *)
Theorem pmt_read_group_cases (fh buf : list Z) (buf_size : Z) :
  buf_size <= Z.of_nat (length buf) ->
  let r := pmt_read_group fh buf buf_size in
  let declared := le16 (take 2 fh) in
  let payload := drop 2 fh in
  ((length fh < 2)%nat -> r = (Err TruncatedInput, [], buf))
  /\ ((2 <= length fh)%nat -> buf_size < declared ->
      r = (Err BufferTooSmall, payload, buf))
  /\ ((2 <= length fh)%nat -> declared <= buf_size ->
      Z.of_nat (length payload) < declared ->
      r = (Err TruncatedInput, [], payload ++ drop (length payload) buf))
  /\ ((2 <= length fh)%nat -> declared <= buf_size ->
      declared <= Z.of_nat (length payload) ->
      r = (Ok declared, drop (Z.to_nat declared) payload,
           take (Z.to_nat declared) payload ++ drop (Z.to_nat declared) buf)
      /\ Z.of_nat (length (take (Z.to_nat declared) payload)) = declared).
Proof. apply pmt_read_group_spec. Qed.

Lemma pmt_read_group_cases_witness :
  let r := pmt_read_group [3; 0; 131; 7; 0; 9; 9] [1; 1; 1; 1; 1] 5 in
  ((7 < 2)%nat -> r = (Err TruncatedInput, [], [1; 1; 1; 1; 1]))
  /\ ((2 <= 7)%nat -> 5 < 3 -> r = (Err BufferTooSmall, [131; 7; 0; 9; 9], [1; 1; 1; 1; 1]))
  /\ ((2 <= 7)%nat -> 3 <= 5 -> 5 < 3 ->
      r = (Err TruncatedInput, [], [131; 7; 0; 9; 9]))
  /\ ((2 <= 7)%nat -> 3 <= 5 -> 3 <= 5 ->
      r = (Ok 3, [9; 9], [131; 7; 0; 1; 1]) /\ 3 = 3).
Proof.
  apply (pmt_read_group_cases [3; 0; 131; 7; 0; 9; 9] [1; 1; 1; 1; 1] 5).
  simpl; lia.
Defined.

(** C7, as stated, fails where its conditions overlap: on a stream whose
    prefix declares 65535 bytes and that holds 3 more bytes, with the
    capacity of 62160 the program uses, fewer bytes than declared are
    available for the payload, and yet the failure is not the truncated
    input but the buffer too small. *)
Lemma pmt_read_group_short_payload_over_capacity :
  let fh := [255; 255; 1; 2; 3] in
  let buf := replicate (Z.to_nat 62160) 0 in
  Z.of_nat (length (drop 2 fh)) < le16 (take 2 fh)
  /\ (pmt_read_group fh buf PMT_DECODED_GROUP_BYTES).1.1 = Err BufferTooSmall
  /\ (pmt_read_group fh buf PMT_DECODED_GROUP_BYTES).1.1 <> Err TruncatedInput.
Proof. repeat split; vm_compute; done. Qed.

(** ** Counted loops and spliced buffers *)

Ltac Zify.zify_post_hook ::= Z.to_euclidean_division_equations.

Lemma for_loop_invariant {St : Type} (P : Z -> St -> Prop) (body : Z -> St -> result St) n :
  forall i s,
  P i s ->
  (forall k s, i <= k < i + Z.of_nat n -> P k s ->
     exists s', body k s = Ok s' /\ P (k + 1) s') ->
  exists s', for_loop n i body s = Ok s' /\ P (i + Z.of_nat n) s'.
Proof.
  induction n as [|n IH]; intros i s Hinit Hbody; simpl.
  - exists s. split; [done|]. by rewrite Z.add_0_r.
  - destruct (Hbody i s) as (s1 & -> & H1); [lia|done|]. simpl.
    destruct (IH (i + 1) s1) as (s' & Hloop & H'); [done| |].
    + intros k s2 Hk. apply Hbody. lia.
    + exists s'. split; [done|]. by replace (i + Z.of_nat (S n)) with (i + 1 + Z.of_nat n) by lia.
Qed.

Lemma for_range_invariant {St : Type} (P : Z -> St -> Prop) (body : Z -> St -> result St)
    lo hi s :
  lo <= hi ->
  P lo s ->
  (forall k s, lo <= k < hi -> P k s -> exists s', body k s = Ok s' /\ P (k + 1) s') ->
  exists s', for_range lo hi body s = Ok s' /\ P hi s'.
Proof.
  intros Hle Hinit Hbody. unfold for_range.
  destruct (for_loop_invariant P body (Z.to_nat (hi - lo)) lo s) as (s' & Hloop & H'); [done| |].
  - intros k s1 Hk. apply Hbody. lia.
  - exists s'. split; [done|].
    by replace (lo + Z.of_nat (Z.to_nat (hi - lo))) with hi in H' by lia.
Qed.

Lemma length_tabulate n f : length (tabulate n f) = Z.to_nat n.
Proof. unfold tabulate. by rewrite length_fmap, length_seqZ. Qed.

Lemma lookup_tabulate n f (i : nat) :
  Z.of_nat i < n -> tabulate n f !! i = Some (f (Z.of_nat i)).
Proof.
  intros Hi. unfold tabulate. by rewrite list_lookup_fmap, lookup_seqZ_lt.
Qed.

Lemma tabulate_app n m f :
  0 <= n -> 0 <= m ->
  tabulate n f ++ tabulate m (fun k => f (n + k)) = tabulate (n + m) f.
Proof.
  intros Hn Hm. unfold tabulate. rewrite seqZ_app by done.
  rewrite fmap_app. f_equal. rewrite Z.add_0_l.
  transitivity (f <$> (Z.add n <$> seqZ 0 m)).
  - by rewrite <- list_fmap_compose.
  - by rewrite fmap_add_seqZ, Z.add_0_r.
Qed.

Lemma length_splice buf off new :
  (off + length new <= length buf)%nat -> length (splice buf off new) = length buf.
Proof. intros. unfold splice. rewrite !length_app, length_take, length_drop. lia. Qed.

Lemma splice_nil buf off : splice buf off [] = buf.
Proof. unfold splice. simpl. by rewrite Nat.add_0_r, take_drop. Qed.

(** Writing [l2] right behind [l1]. *)
Lemma splice_splice buf off l1 l2 :
  (off + length l1 <= length buf)%nat ->
  splice (splice buf off l1) (off + length l1) l2 = splice buf off (l1 ++ l2).
Proof.
  intros Hfit. unfold splice.
  assert (length (take off buf ++ l1) = off + length l1)%nat as Hlen
    by (rewrite length_app, length_take; lia).
  rewrite !(app_assoc (take off buf) l1 (drop (off + length l1) buf)).
  rewrite take_app_length' by done.
  rewrite drop_app_ge, Hlen, drop_drop, length_app by lia.
  rewrite <- !app_assoc. do 4 f_equal. lia.
Qed.

Lemma lookup_splice_new buf off new (i : nat) :
  (off <= length buf)%nat -> (i < length new)%nat ->
  splice buf off new !! (off + i)%nat = new !! i.
Proof.
  intros Hoff Hi. unfold splice.
  rewrite lookup_app_r by (rewrite length_take; lia).
  rewrite length_take, lookup_app_l by lia. f_equal. lia.
Qed.

Lemma lookup_splice_old buf off new (i : nat) :
  (off + length new <= length buf)%nat ->
  (i < off \/ off + length new <= i)%nat ->
  splice buf off new !! i = buf !! i.
Proof.
  intros Hfit [Hi|Hi]; unfold splice.
  - by rewrite lookup_app_l, lookup_take_lt by (rewrite ?length_take; lia).
  - rewrite lookup_app_r by (rewrite length_take; lia).
    rewrite lookup_app_r by (rewrite length_take; lia).
    rewrite lookup_drop, length_take. f_equal. lia.
Qed.

Lemma store_splice buf i v :
  0 <= i < Z.of_nat (length buf) -> store buf i v = Ok (splice buf (Z.to_nat i) [u8 v]).
Proof.
  intros Hi. rewrite store_in_bounds by done. f_equal. unfold splice. simpl.
  rewrite insert_take_drop by lia. do 3 f_equal. lia.
Qed.

Lemma load_total buf i :
  0 <= i < Z.of_nat (length buf) -> load buf i = Ok (u8 (buf !!! Z.to_nat i)).
Proof.
  intros Hi. destruct (load_in_bounds buf i Hi) as (b & Hb & ->).
  by rewrite (list_lookup_total_correct _ _ _ Hb).
Qed.

(** ** Pixels *)

Lemma pmt_plane_pixel_bit b i :
  0 <= b < 256 -> 0 <= i < 8 -> pmt_plane_pixel b i = Z.b2z (Z.testbit b i).
Proof.
  intros Hb Hi.
  pose proof (below_forallb
    (fun i => forallb (fun b => pmt_plane_pixel b i =? Z.b2z (Z.testbit b i)) (seqZ 0 256))
    8 eq_refl i Hi) as H.
  cbv beta in H. pose proof (below_forallb _ 256 H b Hb) as H'.
  cbv beta in H'. by apply Z.eqb_eq.
Qed.

Lemma plane_bit_cases pmt row p j : plane_bit pmt row p j = 0 \/ plane_bit pmt row p j = 1.
Proof. unfold plane_bit. destruct (Z.testbit _ _); simpl; lia. Qed.

Lemma pixel_value_range pmt row j : 0 <= pixel_value pmt row j < 16.
Proof.
  unfold pixel_value.
  destruct (plane_bit_cases pmt row 0 j) as [-> | ->],
    (plane_bit_cases pmt row 1 j) as [-> | ->],
    (plane_bit_cases pmt row 2 j) as [-> | ->],
    (plane_bit_cases pmt row 3 j) as [-> | ->];
    vm_compute; (split; [discriminate|reflexivity]).
Qed.

Lemma for_range_planes {St : Type} (body : Z -> St -> result St) (s : St) :
  for_range 0 PMT_PLANES body s
  = do s1 <- body 0 s; do s2 <- body 1 s1; do s3 <- body 2 s2; body 3 s3.
Proof.
  unfold for_range. change (Z.to_nat (PMT_PLANES - 0)) with 4%nat. cbn [for_loop].
  change (0 + 1 + 1 + 1) with 3. change (0 + 1 + 1) with 2. change (0 + 1) with 1.
  destruct (body 0 s) as [s1| | |]; try done. simpl.
  destruct (body 1 s1) as [s2| | |]; try done. simpl.
  destruct (body 2 s2) as [s3| | |]; try done. simpl.
  by destruct (body 3 s3).
Qed.

(** [bmp_pixel] on a row that lies inside the buffer. *)
Lemma bmp_pixel_value pmt row j :
  0 <= row -> row + PMT_DECODED_ROW_BYTES <= Z.of_nat (length pmt) ->
  0 <= j < PMT_PIXELS_PER_ROW ->
  bmp_pixel pmt row j = Ok (pixel_value pmt row j).
Proof.
  intros Hrow Hfit Hj. unfold bmp_pixel. rewrite for_range_planes.
  unfold PMT_DECODED_ROW_BYTES, PMT_PIXELS_PER_ROW, PMT_PLANES in *.
  rewrite Z.quot_div_nonneg by lia.
  assert (0 <= j / 8 < PMT_DECODED_ROW_PLANE_BYTES) as Hbyte
    by (unfold PMT_DECODED_ROW_PLANE_BYTES in *; lia).
  rewrite (u8_small (7 - _)) by lia.
  replace (7 - (j - j / 8 * 8)) with (7 - j mod 8) by lia.
  assert (forall p, 0 <= p < 4 ->
    load pmt (row + (p * PMT_DECODED_ROW_PLANE_BYTES + j / 8))
    = Ok (u8 (pmt !!! Z.to_nat (row + (p * PMT_DECODED_ROW_PLANE_BYTES + j / 8))))) as Hload.
  { intros p Hp. apply load_total. unfold PMT_DECODED_ROW_PLANE_BYTES in *. lia. }
  assert (forall p,
    pmt_plane_pixel (u8 (pmt !!! Z.to_nat (row + (p * PMT_DECODED_ROW_PLANE_BYTES + j / 8))))
      (7 - j mod 8) = plane_bit pmt row p j) as Hbit.
  { intros p. unfold plane_bit. apply pmt_plane_pixel_bit; [apply u8_range|lia]. }
  rewrite !Hload by lia. cbn [bind]. rewrite !Hbit. unfold pixel_value.
  destruct (plane_bit_cases pmt row 0 j) as [-> | ->],
    (plane_bit_cases pmt row 1 j) as [-> | ->],
    (plane_bit_cases pmt row 2 j) as [-> | ->],
    (plane_bit_cases pmt row 3 j) as [-> | ->]; reflexivity.
Qed.

(** C9.  For a row inside the decoded buffer and a pixel index in
    [0, 840), [bmp_pixel] returns a value in [0, 16): the sum of one bit per
    plane, the bit of plane [p] shifted by [p].  So every nibble packed into
    the pixel array indexes the 16-entry colour table. *)
Theorem bmp_pixel_range (pmt : list Z) (row j : Z) :
  0 <= row -> row + PMT_DECODED_ROW_BYTES <= Z.of_nat (length pmt) ->
  0 <= j < PMT_PIXELS_PER_ROW ->
  exists v, bmp_pixel pmt row j = Ok v
    /\ 0 <= v < 16
    /\ v = Z.shiftl (plane_bit pmt row 0 j) 0 + Z.shiftl (plane_bit pmt row 1 j) 1
           + Z.shiftl (plane_bit pmt row 2 j) 2 + Z.shiftl (plane_bit pmt row 3 j) 3
    /\ forall p, plane_bit pmt row p j = 0 \/ plane_bit pmt row p j = 1.
Proof.
  intros Hrow Hfit Hj. exists (pixel_value pmt row j).
  split; [by apply bmp_pixel_value|]. split; [apply pixel_value_range|].
  split; [done|]. intros p. apply plane_bit_cases.
Qed.

Lemma bmp_pixel_range_witness :
  exists v, bmp_pixel (replicate 105 255 ++ replicate 210 0 ++ replicate 105 255) 0 839 = Ok v
    /\ 0 <= v < 16
    /\ v = Z.shiftl (plane_bit (replicate 105 255 ++ replicate 210 0 ++ replicate 105 255) 0 0 839) 0
           + Z.shiftl (plane_bit (replicate 105 255 ++ replicate 210 0 ++ replicate 105 255) 0 1 839) 1
           + Z.shiftl (plane_bit (replicate 105 255 ++ replicate 210 0 ++ replicate 105 255) 0 2 839) 2
           + Z.shiftl (plane_bit (replicate 105 255 ++ replicate 210 0 ++ replicate 105 255) 0 3 839) 3
    /\ forall p, plane_bit (replicate 105 255 ++ replicate 210 0 ++ replicate 105 255) 0 p 839 = 0
                 \/ plane_bit (replicate 105 255 ++ replicate 210 0 ++ replicate 105 255) 0 p 839 = 1.
Proof.
  apply (bmp_pixel_range (replicate 105 255 ++ replicate 210 0 ++ replicate 105 255) 0 839).
  - lia.
  - vm_compute. discriminate.
  - vm_compute. split; [discriminate|reflexivity].
Defined.

(** ** Rows and groups *)

Lemma tabulate_ext n f g :
  (forall i, 0 <= i < n -> f i = g i) -> tabulate n f = tabulate n g.
Proof.
  intros Hfg. unfold tabulate. apply list_eq. intros i. rewrite !list_lookup_fmap.
  destruct (seqZ 0 n !! i) as [x|] eqn:Hx; [|done]. simpl.
  apply lookup_seqZ in Hx as [-> Hi]. f_equal. apply Hfg. lia.
Qed.

Lemma tabulate_snoc n f : 0 <= n -> tabulate n f ++ [f n] = tabulate (n + 1) f.
Proof.
  intros Hn. rewrite <- (tabulate_app n 1 f) by lia. f_equal.
  unfold tabulate. simpl. by rewrite Z.add_0_r.
Qed.

(** Two nibbles added into a byte are the two nibbles side by side. *)
Lemma pack_nibbles hi lo :
  0 <= hi < 16 -> 0 <= lo < 16 ->
  u8 (u8 (u8 (0 + Z.shiftl hi 4) + lo)) = Z.lor (Z.shiftl hi 4) lo
  /\ u8 (0 + Z.shiftl hi 4) = Z.shiftl hi 4.
Proof.
  intros Hhi Hlo.
  pose proof (below_forallb
    (fun hi => forallb (fun lo =>
       (u8 (u8 (u8 (0 + Z.shiftl hi 4) + lo)) =? Z.lor (Z.shiftl hi 4) lo)
       && (u8 (0 + Z.shiftl hi 4) =? Z.shiftl hi 4)) (seqZ 0 16))
    16 eq_refl hi Hhi) as H.
  cbv beta in H. pose proof (below_forallb _ 16 H lo Hlo) as H'.
  cbv beta in H'. apply andb_prop in H' as [H1 H2]. by split; apply Z.eqb_eq.
Qed.

Section Rows.
Variable pmt : list Z.

(** The pixel loop of one row: it writes the 420 packed bytes of the row
    from [base] on and leaves [bmp_ptr] behind them. *)
Lemma convert_row_pixels row base b :
  0 <= row -> row + PMT_DECODED_ROW_BYTES <= Z.of_nat (length pmt) ->
  0 <= base -> base + BMP_ROW_BYTES <= Z.of_nat (length b) ->
  for_range 0 PMT_PIXELS_PER_ROW (convert_pixel pmt row) (mk_cstate 0 base b)
  = Ok (mk_cstate 0 (base + BMP_ROW_BYTES)
          (splice b (Z.to_nat base) (tabulate BMP_ROW_BYTES (packed_byte pmt row)))).
Proof.
  intros Hrow Hrowfit Hbase Hfit.
  set (P := fun (k : Z) (s : cstate) =>
    bmp_ptr s = base + k / 2
    /\ bmp_byte s = (if k mod 2 =? 0 then 0 else Z.shiftl (pixel_value pmt row (k - 1)) 4)
    /\ bmp s = splice b (Z.to_nat base) (tabulate (k / 2) (packed_byte pmt row))).
  destruct (for_range_invariant P (convert_pixel pmt row) 0 PMT_PIXELS_PER_ROW
              (mk_cstate 0 base b)) as (s' & -> & Hptr & Hbyte & Hbmp).
  - done.
  - unfold P. simpl. repeat split; [lia|]. by rewrite splice_nil.
  - intros k s Hk (Hptr & Hbyte & Hbmp). unfold convert_pixel.
    rewrite bmp_pixel_value by done. cbn [bind].
    rewrite Z.rem_mod_nonneg by lia.
    pose proof (pixel_value_range pmt row k) as Hv.
    format_constants.
    assert (length (bmp s) = length b) as Hlen.
    { rewrite Hbmp. apply length_splice. rewrite length_tabulate. lia. }
    destruct (Z.eqb_spec (k mod 2) 0) as [Heven|Hodd]; simpl.
    + eexists. split; [done|]. unfold P. simpl.
      destruct (Z.eqb_spec ((k + 1) mod 2) 0); [lia|].
      rewrite Hbyte. replace (k + 1 - 1) with k by lia.
      repeat split.
      * lia.
      * by destruct (pack_nibbles (pixel_value pmt row k) 0 Hv ltac:(lia)) as [_ ?].
      * rewrite Hbmp. do 2 f_equal. lia.
    + rewrite store_splice by lia. eexists. split; [done|]. unfold P. simpl.
      destruct (Z.eqb_spec ((k + 1) mod 2) 0); [|lia].
      repeat split; [lia|].
      rewrite Hbmp, Hptr.
      replace (Z.to_nat (base + k / 2))
        with (Z.to_nat base + length (tabulate (k / 2) (packed_byte pmt row)))%nat
        by (rewrite length_tabulate; lia).
      rewrite splice_splice by (rewrite length_tabulate; lia).
      f_equal. replace ((k + 1) / 2) with (k / 2 + 1) by lia.
      rewrite <- tabulate_snoc by lia. do 2 f_equal.
      rewrite Hbyte. unfold packed_byte.
      replace (2 * (k / 2)) with (k - 1) by lia.
      replace (k - 1 + 1) with k by lia.
      pose proof (pixel_value_range pmt row (k - 1)) as Hv'.
      destruct (pack_nibbles _ _ Hv' Hv) as [Hpack Hhigh].
      by rewrite <- Hpack, Hhigh.
  - format_constants.
    change (105 * 8 / 2) with 420 in *.
    change (105 * 8 mod 2 =? 0) with true in Hbyte.
    destruct s' as [byte ptr buf]. simpl in *. subst. by change (105 * 4) with 420.
Qed.

Hypothesis pmt_size : PMT_DECODED_GROUP_BYTES <= Z.of_nat (length pmt).

(** The bytes of the group in the order they are written. *)
Lemma reassemble_rows row :
  0 <= row ->
  tabulate (row * BMP_ROW_BYTES)
    (fun i => packed_byte pmt (i / BMP_ROW_BYTES * PMT_DECODED_ROW_BYTES) (i mod BMP_ROW_BYTES))
  ++ tabulate BMP_ROW_BYTES (packed_byte pmt (row * PMT_DECODED_ROW_BYTES))
  = tabulate ((row + 1) * BMP_ROW_BYTES)
      (fun i => packed_byte pmt (i / BMP_ROW_BYTES * PMT_DECODED_ROW_BYTES)
                  (i mod BMP_ROW_BYTES)).
Proof.
  intros Hrow. format_constants.
  replace ((row + 1) * (105 * 4)) with (row * (105 * 4) + 105 * 4) by lia.
  rewrite <- tabulate_app by lia. f_equal. apply tabulate_ext. intros i Hi.
  f_equal; lia.
Qed.

Lemma convert_group_to_bmp_spec bmp0 gs :
  0 <= gs -> gs + BMP_GROUP_BYTES <= Z.of_nat (length bmp0) ->
  convert_group_to_bmp pmt bmp0 gs
  = Ok (gs + BMP_GROUP_BYTES, splice bmp0 (Z.to_nat gs) (reassemble pmt)).
Proof.
  intros Hgs Hfit. unfold convert_group_to_bmp.
  set (F := fun i => packed_byte pmt (i / BMP_ROW_BYTES * PMT_DECODED_ROW_BYTES)
                       (i mod BMP_ROW_BYTES)).
  set (Q := fun (r : Z) (s : cstate) =>
    bmp s = splice bmp0 (Z.to_nat gs) (tabulate (r * BMP_ROW_BYTES) F)
    /\ (0 < r -> bmp_ptr s = gs + r * BMP_ROW_BYTES)).
  destruct (for_range_invariant Q (convert_row pmt gs) 0 PMT_ROWS_PER_GROUP
              (mk_cstate 0 gs bmp0)) as (s' & -> & Hbmp & Hptr).
  - done.
  - unfold Q. simpl. split; [|lia]. by rewrite splice_nil.
  - intros r s Hr [Hbmp _]. unfold convert_row.
    assert (length (tabulate (r * BMP_ROW_BYTES) F) = Z.to_nat (r * BMP_ROW_BYTES)) as Hlen
      by apply length_tabulate.
    assert (length (bmp s) = length bmp0) as Hlens.
    { rewrite Hbmp. apply length_splice. rewrite Hlen. format_constants. lia. }
    rewrite convert_row_pixels by (format_constants; lia).
    eexists. split; [done|]. unfold Q. simpl. split; [|lia].
    rewrite Hbmp.
    replace (Z.to_nat (gs + r * BMP_ROW_BYTES))
      with (Z.to_nat gs + length (tabulate (r * BMP_ROW_BYTES) F))%nat
      by (rewrite Hlen; format_constants; lia).
    rewrite splice_splice by (rewrite Hlen; format_constants; lia).
    f_equal. apply reassemble_rows. lia.
  - cbn [bind]. f_equal. f_equal.
    + rewrite Hptr by done. format_constants. lia.
    + rewrite Hbmp. do 2 f_equal.
Qed.
End Rows.

Lemma row_index row k :
  0 <= row -> 0 <= k < 420 -> (row * 420 + k) / 420 = row /\ (row * 420 + k) mod 420 = k.
Proof. intros. lia. Qed.

(** C4.  For a decoded group of 62160 bytes, [convert_group_to_bmp] writes,
    for each of the 148 rows, exactly 420 bytes, the bytes of row [row] at
    offsets [row * 420 .. row * 420 + 419] from [bmp_group_start]; byte [k]
    of a row is [(v (2k) << 4) | v (2k + 1)], where [v j] is [pixel_value]:
    the sum over the planes [p] of bit [7 - j mod 8] of byte [j / 8] of
    plane [p], shifted left by [p].  Nothing else in the buffer changes, and
    the pointer returned is behind the last row. *)
Theorem convert_group_to_bmp_bytes (pmt bmp0 : list Z) (gs : Z) :
  PMT_DECODED_GROUP_BYTES <= Z.of_nat (length pmt) ->
  0 <= gs -> gs + BMP_GROUP_BYTES <= Z.of_nat (length bmp0) ->
  exists bmp1,
    convert_group_to_bmp pmt bmp0 gs = Ok (gs + 148 * 420, bmp1)
    /\ length bmp1 = length bmp0
    /\ (forall row k, 0 <= row < 148 -> 0 <= k < 420 ->
          bmp1 !! Z.to_nat (gs + row * 420 + k)
          = Some (Z.lor (Z.shiftl (pixel_value pmt (row * 420) (2 * k)) 4)
                    (pixel_value pmt (row * 420) (2 * k + 1))))
    /\ (forall i : nat, Z.of_nat i < gs \/ gs + 148 * 420 <= Z.of_nat i ->
          bmp1 !! i = bmp0 !! i).
Proof.
  intros Hpmt Hgs Hfit. exists (splice bmp0 (Z.to_nat gs) (reassemble pmt)).
  assert (length (reassemble pmt) = Z.to_nat BMP_GROUP_BYTES) as Hlen
    by apply length_tabulate.
  split; [|split; [|split]].
  - by rewrite convert_group_to_bmp_spec.
  - apply length_splice. rewrite Hlen. format_constants. lia.
  - intros row k Hrow Hk.
    replace (Z.to_nat (gs + row * 420 + k))
      with (Z.to_nat gs + Z.to_nat (row * 420 + k))%nat by lia.
    rewrite lookup_splice_new by (rewrite ?Hlen; format_constants; lia).
    unfold reassemble. rewrite lookup_tabulate by (format_constants; lia).
    unfold packed_byte. rewrite Z2Nat.id by lia.
    change BMP_ROW_BYTES with 420. change PMT_DECODED_ROW_BYTES with 420.
    by destruct (row_index row k) as [-> ->]; [lia..|].
  - intros i Hi. apply lookup_splice_old; rewrite Hlen; format_constants; lia.
Qed.

Lemma convert_group_to_bmp_bytes_witness :
  exists bmp1,
    convert_group_to_bmp (replicate (Z.to_nat 62160) 255) (replicate (Z.to_nat 62160) 0) 0
    = Ok (0 + 148 * 420, bmp1)
    /\ length bmp1 = length (replicate (Z.to_nat 62160) 0)
    /\ (forall row k, 0 <= row < 148 -> 0 <= k < 420 ->
          bmp1 !! Z.to_nat (0 + row * 420 + k)
          = Some (Z.lor
                    (Z.shiftl (pixel_value (replicate (Z.to_nat 62160) 255) (row * 420) (2 * k)) 4)
                    (pixel_value (replicate (Z.to_nat 62160) 255) (row * 420) (2 * k + 1))))
    /\ (forall i : nat, Z.of_nat i < 0 \/ 0 + 148 * 420 <= Z.of_nat i ->
          bmp1 !! i = replicate (Z.to_nat 62160) 0 !! i).
Proof.
  apply (convert_group_to_bmp_bytes (replicate (Z.to_nat 62160) 255)
           (replicate (Z.to_nat 62160) 0) 0).
  - rewrite length_replicate. vm_compute. discriminate.
  - lia.
  - rewrite length_replicate. vm_compute. discriminate.
Defined.

(** ** The colour table *)

Lemma for_range_channels {St : Type} (body : Z -> St -> result St) (s : St) :
  for_range 0 3 body s = do s1 <- body 0 s; do s2 <- body 1 s1; body 2 s2.
Proof.
  unfold for_range. change (Z.to_nat (3 - 0)) with 3%nat. cbn [for_loop].
  change (0 + 1 + 1) with 2. change (0 + 1) with 1.
  destruct (body 0 s) as [s1| | |]; try done. simpl.
  destruct (body 1 s1) as [s2| | |]; try done. simpl.
  by destruct (body 2 s2).
Qed.

Lemma shift_six_bits x : 0 <= x < 64 -> u8 (Z.shiftl x 2) = Z.shiftl x 2.
Proof.
  intros Hx. rewrite Z.shiftl_mul_pow2 by lia. apply u8_small. lia.
Qed.

Lemma store_after_splice t off l i v :
  0 <= i -> Z.to_nat i = (off + length l)%nat -> (off + length l < length t)%nat ->
  store (splice t off l) i v = Ok (splice t off (l ++ [u8 v])).
Proof.
  intros Hpos Hi Hfit. rewrite store_splice by (rewrite length_splice; lia).
  by rewrite Hi, splice_splice by lia.
Qed.

Section ColorTable.
Variable pmt_color_table : list Z.
Hypothesis pmt_color_table_size : length pmt_color_table = 48%nat.

Lemma color_entry_spec i t :
  0 <= i < 16 -> i * 4 + 4 <= Z.of_nat (length t) ->
  color_entry pmt_color_table i t
  = Ok (splice t (Z.to_nat (i * 4))
          (tabulate 4 (fun c => color_byte pmt_color_table (i * 4 + c)))).
Proof.
  intros Hi Hfit. unfold color_entry. rewrite for_range_channels.
  assert (forall c, 0 <= c < 3 ->
    load pmt_color_table (i * 3 + (2 - c))
    = Ok (u8 (pmt_color_table !!! Z.to_nat (i * 3 + (2 - c))))) as Hload
    by (intros c Hc; apply load_total; lia).
  assert (forall c, 0 <= c < 3 ->
    u8 (Z.shiftl (u8 (pmt_color_table !!! Z.to_nat (i * 3 + (2 - c)))) 2)
    = color_byte pmt_color_table (i * 4 + c)) as Hbyte.
  { intros c Hc. unfold color_byte.
    destruct (Z.eqb_spec ((i * 4 + c) mod 4) 3); [lia|].
    do 4 f_equal. lia. }
  assert (color_byte pmt_color_table (i * 4 + 3) = u8 0) as Hpad.
  { unfold color_byte. by destruct (Z.eqb_spec ((i * 4 + 3) mod 4) 3); [|lia]. }
  cbv beta. rewrite !Hload by lia. cbn [bind].
  rewrite store_splice by lia. cbn [bind].
  rewrite store_after_splice by (simpl; lia). cbn [bind app].
  rewrite store_after_splice by (simpl; lia). cbn [bind app].
  rewrite store_after_splice by (simpl; lia). cbn [bind app].
  rewrite !Hbyte, <- Hpad by lia. do 2 f_equal. lia.
Qed.

Lemma pmt_to_bmp_color_table_spec bmp_color_table :
  64 <= Z.of_nat (length bmp_color_table) ->
  pmt_to_bmp_color_table pmt_color_table bmp_color_table
  = Ok (splice bmp_color_table 0 (tabulate 64 (color_byte pmt_color_table))).
Proof.
  intros Hfit. unfold pmt_to_bmp_color_table.
  set (Q := fun (i : Z) (t : list Z) =>
    t = splice bmp_color_table 0 (tabulate (i * 4) (color_byte pmt_color_table))).
  destruct (for_range_invariant Q (color_entry pmt_color_table) 0 16 bmp_color_table)
    as (t & -> & Ht).
  - done.
  - unfold Q. simpl. by rewrite splice_nil.
  - intros i t Hi Ht. unfold Q in Ht.
    assert (length (tabulate (i * 4) (color_byte pmt_color_table)) = Z.to_nat (i * 4)) as Hlen
      by apply length_tabulate.
    rewrite color_entry_spec by (rewrite ?Ht, ?length_splice; rewrite ?Hlen; lia).
    eexists. split; [done|]. unfold Q. rewrite Ht.
    replace (Z.to_nat (i * 4))
      with (0 + length (tabulate (i * 4) (color_byte pmt_color_table)))%nat at 1
      by (rewrite Hlen; lia).
    rewrite splice_splice by (rewrite Hlen; lia).
    f_equal. replace ((i + 1) * 4) with (i * 4 + 4) by lia.
    by rewrite <- tabulate_app by lia.
  - by rewrite Ht.
Qed.
End ColorTable.

(** C5.  For a PMT colour table of 16 entries of 3 channels (48 bytes) and
    a BMP colour table of 64 bytes, [pmt_to_bmp_color_table] sets, for every
    entry [i], channel [c] in 0..2 to input channel [2 - c] shifted left by
    2 (as a [uint8_t]; a 6-bit input loses nothing), and channel 3 to 0.
    An input entry (0x3F, 0x20, 0x10) becomes (0x40, 0x80, 0xFC, 0x00). *)
Theorem pmt_to_bmp_color_table_entries (pmt_color_table bmp_color_table : list Z) :
  length pmt_color_table = 48%nat -> length bmp_color_table = 64%nat ->
  exists t,
    pmt_to_bmp_color_table pmt_color_table bmp_color_table = Ok t
    /\ length t = 64%nat
    /\ (forall i c, 0 <= i < 16 -> 0 <= c < 3 ->
          exists x, load pmt_color_table (i * 3 + (2 - c)) = Ok x
            /\ t !! Z.to_nat (i * 4 + c) = Some (u8 (Z.shiftl x 2))
            /\ (x < 64 -> t !! Z.to_nat (i * 4 + c) = Some (Z.shiftl x 2)))
    /\ (forall i, 0 <= i < 16 -> t !! Z.to_nat (i * 4 + 3) = Some 0)
    /\ (forall i, 0 <= i < 16 ->
          load pmt_color_table (i * 3) = Ok 63 ->
          load pmt_color_table (i * 3 + 1) = Ok 32 ->
          load pmt_color_table (i * 3 + 2) = Ok 16 ->
          t !! Z.to_nat (i * 4) = Some 64 /\ t !! Z.to_nat (i * 4 + 1) = Some 128
          /\ t !! Z.to_nat (i * 4 + 2) = Some 252 /\ t !! Z.to_nat (i * 4 + 3) = Some 0).
Proof.
  intros Hpmt Hbmp.
  exists (splice bmp_color_table 0 (tabulate 64 (color_byte pmt_color_table))).
  assert (length (tabulate 64 (color_byte pmt_color_table)) = 64%nat) as Hlen
    by (rewrite length_tabulate; lia).
  assert (forall j, 0 <= j < 64 ->
    splice bmp_color_table 0 (tabulate 64 (color_byte pmt_color_table)) !! Z.to_nat j
    = Some (color_byte pmt_color_table j)) as Hlook.
  { intros j Hj. rewrite (lookup_splice_new _ 0 _ (Z.to_nat j)) by lia.
    rewrite lookup_tabulate by lia. by rewrite Z2Nat.id by lia. }
  assert (forall i c, 0 <= i < 16 -> 0 <= c < 3 ->
    load pmt_color_table (i * 3 + (2 - c))
    = Ok (u8 (pmt_color_table !!! Z.to_nat (i * 3 + (2 - c))))
    /\ color_byte pmt_color_table (i * 4 + c)
       = u8 (Z.shiftl (u8 (pmt_color_table !!! Z.to_nat (i * 3 + (2 - c)))) 2)) as Hchan.
  { intros i c Hi Hc. split; [apply load_total; lia|]. unfold color_byte.
    destruct (Z.eqb_spec ((i * 4 + c) mod 4) 3); [lia|]. do 4 f_equal. lia. }
  assert (forall i, 0 <= i < 16 -> color_byte pmt_color_table (i * 4 + 3) = 0) as Hpad.
  { intros i Hi. unfold color_byte.
    by destruct (Z.eqb_spec ((i * 4 + 3) mod 4) 3); [|lia]. }
  split; [|split; [|split; [|split]]].
  - apply pmt_to_bmp_color_table_spec; [done|lia].
  - rewrite length_splice; lia.
  - intros i c Hi Hc. destruct (Hchan i c Hi Hc) as [Hload Hbyte].
    eexists. split; [exact Hload|]. rewrite Hlook, Hbyte by lia.
    split; [done|]. intros Hsix. rewrite shift_six_bits; [done|].
    pose proof (u8_range (pmt_color_table !!! Z.to_nat (i * 3 + (2 - c)))). lia.
  - intros i Hi. by rewrite Hlook, Hpad by lia.
  - intros i Hi H0 H1 H2.
    destruct (Hchan i 0 Hi ltac:(lia)) as [Hl0 Hb0].
    destruct (Hchan i 1 Hi ltac:(lia)) as [Hl1 Hb1].
    destruct (Hchan i 2 Hi ltac:(lia)) as [Hl2 Hb2].
    replace (i * 3 + (2 - 0)) with (i * 3 + 2) in * by lia.
    replace (i * 3 + (2 - 1)) with (i * 3 + 1) in * by lia.
    replace (i * 3 + (2 - 2)) with (i * 3) in * by lia.
    rewrite H2 in Hl0. rewrite H1 in Hl1. rewrite H0 in Hl2.
    injection Hl0 as Hl0. injection Hl1 as Hl1. injection Hl2 as Hl2.
    rewrite <- Hl0 in Hb0. rewrite <- Hl1 in Hb1. rewrite <- Hl2 in Hb2.
    replace (i * 4) with (i * 4 + 0) at 1 by lia.
    rewrite !Hlook, Hb0, Hb1, Hb2, Hpad by lia. done.
Qed.

Lemma pmt_to_bmp_color_table_entries_witness :
  exists t,
    pmt_to_bmp_color_table ([63; 32; 16] ++ replicate 45 21) (replicate 64 255) = Ok t
    /\ length t = 64%nat
    /\ (forall i c, 0 <= i < 16 -> 0 <= c < 3 ->
          exists x, load ([63; 32; 16] ++ replicate 45 21) (i * 3 + (2 - c)) = Ok x
            /\ t !! Z.to_nat (i * 4 + c) = Some (u8 (Z.shiftl x 2))
            /\ (x < 64 -> t !! Z.to_nat (i * 4 + c) = Some (Z.shiftl x 2)))
    /\ (forall i, 0 <= i < 16 -> t !! Z.to_nat (i * 4 + 3) = Some 0)
    /\ (forall i, 0 <= i < 16 ->
          load ([63; 32; 16] ++ replicate 45 21) (i * 3) = Ok 63 ->
          load ([63; 32; 16] ++ replicate 45 21) (i * 3 + 1) = Ok 32 ->
          load ([63; 32; 16] ++ replicate 45 21) (i * 3 + 2) = Ok 16 ->
          t !! Z.to_nat (i * 4) = Some 64 /\ t !! Z.to_nat (i * 4 + 1) = Some 128
          /\ t !! Z.to_nat (i * 4 + 2) = Some 252 /\ t !! Z.to_nat (i * 4 + 3) = Some 0).
Proof.
  apply (pmt_to_bmp_color_table_entries ([63; 32; 16] ++ replicate 45 21) (replicate 64 255));
    reflexivity.
Defined.

(** ** The pipeline *)

Lemma pmt_read_group_result fh buf buf_size r fh' buf' :
  buf_size <= Z.of_nat (length buf) ->
  pmt_read_group fh buf buf_size = (r, fh', buf') ->
  length buf' = length buf
  /\ ((exists n, r = Ok n /\ 0 <= n <= buf_size) \/ exists e, r = Err e).
Proof.
  intros Hcap Hread.
  destruct (pmt_read_group_spec fh buf buf_size Hcap) as (Hshort & Hbig & Htrunc & Hok).
  pose proof (le16_range (take 2 fh)) as Hdecl.
  destruct (decide (length fh < 2)%nat) as [Hlen|Hlen].
  { rewrite Hshort in Hread by done. injection Hread as <- <- <-. eauto. }
  destruct (decide (buf_size < le16 (take 2 fh))) as [Hover|Hfit].
  { rewrite Hbig in Hread by lia. injection Hread as <- <- <-. eauto. }
  destruct (decide (Z.of_nat (length (drop 2 fh)) < le16 (take 2 fh))) as [Hless|Henough].
  - rewrite Htrunc in Hread by lia. injection Hread as <- <- <-.
    split; [|eauto]. rewrite length_app, !length_drop. rewrite length_drop in Hless. lia.
  - destruct Hok as [Hres _]; [lia..|]. rewrite Hres in Hread. injection Hread as <- <- <-.
    split; [|left; eexists; split; [done|lia]].
    rewrite length_drop in Henough. rewrite length_app, length_take, !length_drop. lia.
Qed.

Lemma groups_loop_spec n : forall i s,
  0 <= i ->
  Z.of_nat (length (p_raw_group_buf s)) = PMT_DECODED_GROUP_BYTES ->
  Z.of_nat (length (p_decoded_group_buf s)) = PMT_DECODED_GROUP_BYTES ->
  (i + Z.of_nat n) * BMP_GROUP_BYTES <= Z.of_nat (length (p_bmp_buf s)) ->
  match decoded_groups n (p_in s) (p_raw_group_buf s) (p_decoded_group_buf s) with
  | Ok (groups, rest) =>
      length groups = n
      /\ Forall (fun g => Z.of_nat (length g) = PMT_DECODED_GROUP_BYTES) groups
      /\ exists raw' dec',
           groups_loop n i s
           = (mk_pstate rest raw' dec'
                (splice (p_bmp_buf s) (Z.to_nat (i * BMP_GROUP_BYTES))
                   (groups ≫= reassemble))
                (if n is O then p_end_ptr s else (i + Z.of_nat n) * BMP_GROUP_BYTES),
              Ok tt)
  | r => (groups_loop n i s).2 = fail_as r /\ r <> OutOfFuel
  end.
Proof.
  induction n as [|n IH]; intros i s Hi Hraw Hdec Hbmp.
  - simpl. split; [done|]. split; [constructor|].
    exists (p_raw_group_buf s), (p_decoded_group_buf s).
    rewrite splice_nil. by destruct s.
  - cbn [decoded_groups groups_loop]. unfold process_group.
    destruct (pmt_read_group (p_in s) (p_raw_group_buf s) PMT_DECODED_GROUP_BYTES)
      as [[r1 fh1] raw1] eqn:Hread.
    apply pmt_read_group_result in Hread as [Hraw1 Hr1]; [|lia].
    destruct Hr1 as [(len & -> & Hlen)|(e & ->)]; [|done].
    cbn [bind].
    pose proof (pmt_decode_group_not_out_of_fuel raw1 len (p_decoded_group_buf s)
                  PMT_DECODED_GROUP_BYTES) as Hfuel.
    pose proof (pmt_decode_group_length raw1 len (p_decoded_group_buf s)
                  PMT_DECODED_GROUP_BYTES) as Hdec2.
    destruct (pmt_decode_group raw1 len (p_decoded_group_buf s) PMT_DECODED_GROUP_BYTES)
      as [r2 dec2]. simpl in Hfuel, Hdec2.
    destruct r2 as [decoded_bytes|e| |]; try done. cbn [bind].
    assert (length (reassemble dec2) = Z.to_nat BMP_GROUP_BYTES) as Hgroup
      by apply length_tabulate.
    rewrite convert_group_to_bmp_spec by (format_constants; lia).
    specialize (IH (i + 1)
      (mk_pstate fh1 raw1 dec2
         (splice (p_bmp_buf s) (Z.to_nat (i * BMP_GROUP_BYTES)) (reassemble dec2))
         (i * BMP_GROUP_BYTES + BMP_GROUP_BYTES))).
    cbn [p_in p_raw_group_buf p_decoded_group_buf p_bmp_buf p_end_ptr] in IH.
    rewrite length_splice in IH by (rewrite Hgroup; format_constants; lia).
    specialize (IH ltac:(lia) ltac:(lia) ltac:(lia) ltac:(lia)).
    destruct (decoded_groups n fh1 raw1 dec2) as [[groups rest]|e| |]; cbn [bind];
      try exact IH.
    cbn [fst snd]. destruct IH as (Hn & Hall & raw' & dec' & ->).
    split; [simpl; lia|]. split; [constructor; [lia|done]|].
    exists raw', dec'. f_equal. f_equal.
    + replace (Z.to_nat ((i + 1) * BMP_GROUP_BYTES))
        with (Z.to_nat (i * BMP_GROUP_BYTES) + length (reassemble dec2))%nat
        by (rewrite Hgroup; format_constants; lia).
      by rewrite splice_splice by (rewrite Hgroup; format_constants; lia).
    + destruct n; lia.
Qed.

(** Equal-sized chunks laid end to end: chunk [i] is the [i]-th slice. *)
Lemma bind_slice {A : Type} (f : A -> list Z) (n : nat) (xs : list A) :
  Forall (fun x => length (f x) = n) xs ->
  forall (i : nat) x tail,
  xs !! i = Some x -> take n (drop (i * n) ((xs ≫= f) ++ tail)) = f x.
Proof.
  induction 1 as [|y ys Hy _ IH]; intros i x tail Hi; [done|].
  rewrite bind_cons, <- app_assoc. destruct i as [|i]; simpl in Hi.
  - injection Hi as ->. rewrite Nat.mul_0_l, drop_0. by rewrite take_app_length' by done.
  - replace (S i * n)%nat with (length (f y) + i * n)%nat by lia.
    rewrite drop_app_add. by apply IH.
Qed.

Lemma length_bind_reassemble groups :
  length (groups ≫= reassemble) = (length groups * Z.to_nat BMP_GROUP_BYTES)%nat.
Proof.
  induction groups as [|g groups IH]; [done|].
  rewrite bind_cons, length_app, IH. unfold reassemble at 1. rewrite length_tabulate.
  cbn [length]. lia.
Qed.

(** C8.  [pmt_to_bmp] on a file that can be opened, with its scratch arrays
    of 62160 bytes, a pixel array of at least 372960 bytes and a colour
    table of 64 bytes.  The 6 groups are read and decoded in input order
    ([decoded_groups]); the reassembled bytes of group [i] are the slice
    [i * 62160, (i + 1) * 62160) of the pixel array.  The first group read
    or decode that fails makes the call fail in the same way, and so does a
    colour table of fewer than 48 bytes behind the 16 skipped ones; nothing
    is retried.  On success the call returns the end of the pixel array,
    having written exactly its first 372960 bytes and all 64 bytes of the
    colour table. *)
Theorem pmt_to_bmp_result (file raw dec ct bmp bct : list Z) :
  Z.of_nat (length raw) = PMT_DECODED_GROUP_BYTES ->
  Z.of_nat (length dec) = PMT_DECODED_GROUP_BYTES ->
  length ct = 48%nat ->
  BMP_PIXEL_ARRAY_SIZE <= Z.of_nat (length bmp) ->
  length bct = 64%nat ->
  let '(r, bmp', bct') := pmt_to_bmp (Some file) raw dec ct bmp bct in
  match decoded_groups 6 file raw dec with
  | Ok (groups, rest) =>
      bmp' = splice bmp 0 (groups ≫= reassemble)
      /\ length groups = 6%nat
      /\ Z.of_nat (length (groups ≫= reassemble)) = 372960
      /\ (forall (i : nat) g, groups !! i = Some g ->
            take (Z.to_nat 62160) (drop (i * Z.to_nat 62160) bmp') = reassemble g)
      /\ if Z.of_nat (length (drop 16 rest)) <? 48
         then r = Err TruncatedInput /\ bct' = bct
         else r = Ok 372960
              /\ bct' = tabulate 64 (color_byte (take 48 (drop 16 rest)))
              /\ length bct' = 64%nat
  | Err e => r = Err e /\ bct' = bct
  | Undef => r = Undef /\ bct' = bct
  | OutOfFuel => False
  end.
Proof.
  intros Hraw Hdec Hct Hbmp Hbct. unfold pmt_to_bmp.
  change (Z.to_nat PMT_GROUPS) with 6%nat.
  pose proof (groups_loop_spec 6 0 (mk_pstate file raw dec bmp 0)) as H.
  cbn [p_in p_raw_group_buf p_decoded_group_buf p_bmp_buf p_end_ptr] in H.
  specialize (H ltac:(lia) Hraw Hdec ltac:(format_constants; lia)).
  destruct (decoded_groups 6 file raw dec) as [[groups rest]|e| |].
  - destruct H as (Hn & Hall & raw' & dec' & ->).
    cbn [p_in p_raw_group_buf p_decoded_group_buf p_bmp_buf p_end_ptr].
    change (Z.to_nat (0 * BMP_GROUP_BYTES)) with 0%nat.
    pose proof (length_bind_reassemble groups) as Hpix. rewrite Hn in Hpix.
    assert (Z.of_nat (length (groups ≫= reassemble)) = 372960) as Hpix'
      by (rewrite Hpix; format_constants; lia).
    assert (length (take 48 (drop 16 rest)) <= 48)%nat as Hdata
      by (rewrite length_take; lia).
    rewrite memcpy_in_bounds by lia.
    rewrite Nat2Z.id, Z.add_0_l, Nat2Z.id, drop_0, (take_ge (take 48 (drop 16 rest))) by lia.
    change (take (Z.to_nat 0) ct) with (@nil Z). cbn [app].
    assert (forall bmp' r bct',
      (if Z.of_nat (length (drop 16 rest)) <? 48
       then r = Err TruncatedInput /\ bct' = bct
       else r = Ok 372960
            /\ bct' = tabulate 64 (color_byte (take 48 (drop 16 rest)))
            /\ length bct' = 64%nat) ->
      bmp' = splice bmp 0 (groups ≫= reassemble) ->
      bmp' = splice bmp 0 (groups ≫= reassemble)
      /\ length groups = 6%nat
      /\ Z.of_nat (length (groups ≫= reassemble)) = 372960
      /\ (forall (i : nat) g, groups !! i = Some g ->
            take (Z.to_nat 62160) (drop (i * Z.to_nat 62160) bmp') = reassemble g)
      /\ if Z.of_nat (length (drop 16 rest)) <? 48
         then r = Err TruncatedInput /\ bct' = bct
         else r = Ok 372960
              /\ bct' = tabulate 64 (color_byte (take 48 (drop 16 rest)))
              /\ length bct' = 64%nat) as Hpost.
    { intros bmp' r bct' Hr ->. repeat (split; [done|]). split; [|exact Hr].
      intros i g Hi. unfold splice. rewrite take_0. cbn [app].
      apply (bind_slice reassemble (Z.to_nat 62160)); [|done].
      apply Forall_forall. intros g' _. apply length_tabulate. }
    rewrite length_take.
    destruct (Z.ltb_spec (Z.of_nat (length (drop 16 rest))) 48) as [Hshort|Hfull].
    + destruct (Z.eqb_spec (Z.of_nat (48 `min` length (drop 16 rest))) 48) as [|_]; [lia|].
      cbn [negb]. apply Hpost; [|reflexivity].
      destruct (Z.ltb_spec (Z.of_nat (length (drop 16 rest))) 48); [|lia]. by split.
    + destruct (Z.eqb_spec (Z.of_nat (48 `min` length (drop 16 rest))) 48) as [_|]; [|lia].
      cbn [negb]. rewrite Nat.min_l by lia.
      replace (drop 48 ct) with (@nil Z) by (symmetry; apply drop_ge; lia).
      rewrite app_nil_r.
      rewrite pmt_to_bmp_color_table_spec by (rewrite ?length_take; lia).
      apply Hpost; [|reflexivity].
      destruct (Z.ltb_spec (Z.of_nat (length (drop 16 rest))) 48); [lia|].
      assert (length (tabulate 64 (color_byte (take 48 (drop 16 rest)))) = 64%nat) as Hlen
        by (rewrite length_tabulate; lia).
      assert (splice bct 0 (tabulate 64 (color_byte (take 48 (drop 16 rest))))
              = tabulate 64 (color_byte (take 48 (drop 16 rest)))) as ->.
      { unfold splice. rewrite take_0, (drop_ge bct) by (rewrite Hlen; lia).
        cbn [app]. apply app_nil_r. }
      split; [reflexivity|split; [reflexivity|exact Hlen]].
  - destruct (groups_loop 6 0 (mk_pstate file raw dec bmp 0)) as [s' r'].
    cbn [snd] in H. destruct H as [-> _]. cbn. by split.
  - destruct (groups_loop 6 0 (mk_pstate file raw dec bmp 0)) as [s' r'].
    cbn [snd] in H. destruct H as [-> _]. cbn. by split.
  - by destruct H as [_ H].
Qed.

Lemma pmt_to_bmp_result_witness :
  let file := [5; 0; 130; 7] in
  let raw := replicate (Z.to_nat 62160) 0 in
  let dec := replicate (Z.to_nat 62160) 0 in
  let ct := replicate 48 0 in
  let bmp := replicate (Z.to_nat 372960) 0 in
  let bct := replicate 64 0 in
  let '(r, bmp', bct') := pmt_to_bmp (Some file) raw dec ct bmp bct in
  match decoded_groups 6 file raw dec with
  | Ok (groups, rest) =>
      bmp' = splice bmp 0 (groups ≫= reassemble)
      /\ length groups = 6%nat
      /\ Z.of_nat (length (groups ≫= reassemble)) = 372960
      /\ (forall (i : nat) g, groups !! i = Some g ->
            take (Z.to_nat 62160) (drop (i * Z.to_nat 62160) bmp') = reassemble g)
      /\ if Z.of_nat (length (drop 16 rest)) <? 48
         then r = Err TruncatedInput /\ bct' = bct
         else r = Ok 372960
              /\ bct' = tabulate 64 (color_byte (take 48 (drop 16 rest)))
              /\ length bct' = 64%nat
  | Err e => r = Err e /\ bct' = bct
  | Undef => r = Undef /\ bct' = bct
  | OutOfFuel => False
  end.
Proof.
  intros file raw dec ct bmp bct.
  apply (pmt_to_bmp_result file raw dec ct bmp bct).
  - subst raw. rewrite length_replicate. vm_compute. reflexivity.
  - subst dec. rewrite length_replicate. vm_compute. reflexivity.
  - reflexivity.
  - subst bmp. rewrite length_replicate. vm_compute. discriminate.
  - reflexivity.
Defined.

(** * Further properties of the code *)

(** ** The decoder and its buffers *)

(** The write cursor stays within the capacity. *)
Lemma decoding_within_capacity raw raw_size size dec s :
  0 <= size ->
  decoding raw raw_size size (mk_dstate 0 0 dec) s -> dst s <= size.
Proof.
  intros Hsize. induction 1 as [|s s' _ IH Hlt Hstep]; [done|].
  destruct (decode_step_inv _ _ _ _ _ Hstep) as (c & _ & [Hrun|Hlit]).
  - destruct Hrun as (_ & Hfit & _ & _ & _ & _ & ->). lia.
  - destruct Hlit as (_ & Hfit & _ & _ & ->). lia.
Qed.

(** A pass stays inside both buffers when the raw buffer extends 127 cells
    beyond the declared input and the decoded buffer holds the capacity. *)
Lemma decode_step_defined raw raw_size size s :
  raw_size + 127 <= Z.of_nat (length raw) ->
  0 <= src s < raw_size ->
  0 <= dst s -> size <= Z.of_nat (length (out s)) ->
  decode_step raw raw_size size s <> Undef.
Proof.
  intros Hraw Hsrc Hdst Hout. unfold decode_step.
  destruct (load_in_bounds raw (src s)) as (b & _ & ->); [lia|]. cbn [bind].
  pose proof (u8_range b) as Hb.
  pose proof (control_byte_run_length (u8 b) Hb) as Hrun.
  rewrite (u8_small (Z.land (u8 b) 127)) by lia. rewrite !Z.gtb_ltb.
  destruct (Z.eqb_spec (Z.land (u8 b) 128) 0) as [Hbit|Hbit]; cbn [negb].
  - pose proof (control_byte_literal (u8 b) Hb Hbit) as Hlit.
    destruct (Z.ltb_spec raw_size (src s + 1)); [done|].
    destruct (Z.ltb_spec size (dst s + u8 b)); [done|].
    by rewrite memcpy_in_bounds by lia.
  - destruct (Z.ltb_spec raw_size (src s + 1)); [done|].
    destruct (Z.ltb_spec size (dst s + Z.land (u8 b) 127)); [done|].
    destruct (load_in_bounds raw (src s + 1)) as (v & _ & ->); [lia|]. cbn [bind].
    by rewrite memset_in_bounds by lia.
Qed.

(** X2.  [pmt_decode_group] touches no memory outside its two buffers when
    the raw buffer is at least 127 bytes longer than the declared input and
    the decoded buffer holds [decoded_group_buf_size] bytes: the reads that
    pass the declared input (the operands of the last opcode) end within
    127 bytes of it. *)
Theorem pmt_decode_group_memory_safe (raw : list Z) (raw_size : Z) (dec : list Z) (size : Z) :
  raw_size + 127 <= Z.of_nat (length raw) ->
  size <= Z.of_nat (length dec) ->
  (pmt_decode_group raw raw_size dec size).1 <> Undef
  /\ (pmt_decode_group raw raw_size dec size).1 <> OutOfFuel.
Proof.
  intros Hraw Hdec. split; [|apply pmt_decode_group_not_out_of_fuel].
  rewrite pmt_decode_group_run.
  destruct (decode_run raw raw_size size (mk_dstate 0 0 dec)) as [s r] eqn:Hrun.
  apply decode_run_inv in Hrun as [Hreach Hr].
  destruct (decoding_written _ _ _ _ _ Hreach) as (Hsrc & Hdst & Hlen & _).
  destruct r as [[]|e| |]; cbn [fst bind]; try done.
  - unfold decode_finish. by case_match.
  - destruct Hr as [Hlt Hstep]. intros _.
    apply (decode_step_defined raw raw_size size s); [done|lia|lia| |done].
    rewrite Hlen. lia.
Qed.

Lemma pmt_decode_group_memory_safe_witness :
  (pmt_decode_group ([2; 8] ++ replicate 127 9) 2 [0; 0; 0] 2).1 <> Undef
  /\ (pmt_decode_group ([2; 8] ++ replicate 127 9) 2 [0; 0; 0] 2).1 <> OutOfFuel.
Proof.
  apply (pmt_decode_group_memory_safe ([2; 8] ++ replicate 127 9) 2 [0; 0; 0] 2).
  - vm_compute. discriminate.
  - vm_compute. discriminate.
Defined.

(** X3.  Whatever the raw input and however the call ends, [pmt_decode_group]
    leaves the decoded buffer with its length, and with every cell at or
    beyond [decoded_group_buf_size] as it was: no opcode writes past the
    capacity. *)
Theorem pmt_decode_group_writes_within_capacity
    (raw : list Z) (raw_size : Z) (dec : list Z) (size : Z) :
  0 <= size ->
  length (pmt_decode_group raw raw_size dec size).2 = length dec
  /\ drop (Z.to_nat size) (pmt_decode_group raw raw_size dec size).2
     = drop (Z.to_nat size) dec.
Proof.
  intros Hsize. split; [apply pmt_decode_group_length|].
  rewrite pmt_decode_group_run.
  destruct (decode_run raw raw_size size (mk_dstate 0 0 dec)) as [s r] eqn:Hrun.
  apply decode_run_inv in Hrun as [Hreach _]. cbn [snd].
  destruct (decoding_written _ _ _ _ _ Hreach) as (_ & Hdst & _ & Hdrop).
  pose proof (decoding_within_capacity _ _ _ _ _ Hsize Hreach) as Hcap.
  replace (Z.to_nat size) with (Z.to_nat (dst s) + (Z.to_nat size - Z.to_nat (dst s)))%nat
    by lia.
  by rewrite <- !drop_drop, Hdrop.
Qed.

Lemma pmt_decode_group_writes_within_capacity_witness :
  length (pmt_decode_group [130; 7; 132; 9] 4 [1; 2; 3; 4; 5] 3).2 = length [1; 2; 3; 4; 5]
  /\ drop (Z.to_nat 3) (pmt_decode_group [130; 7; 132; 9] 4 [1; 2; 3; 4; 5] 3).2
     = drop (Z.to_nat 3) [1; 2; 3; 4; 5].
Proof.
  apply (pmt_decode_group_writes_within_capacity [130; 7; 132; 9] 4 [1; 2; 3; 4; 5] 3).
  lia.
Defined.

(** X1.  The ways [pmt_decode_group] can end, for every input: it returns
    [decoded_group_buf_size], or it reports the output overrun or the size
    mismatch, or it has left its buffers.  It never reports the input
    overrun (the check behind that diagnostic cannot fire), and it never
    returns a byte count other than the capacity. *)
Theorem pmt_decode_group_outcomes (raw : list Z) (raw_size : Z) (dec : list Z) (size : Z) :
  (pmt_decode_group raw raw_size dec size).1 = Ok size
  \/ (pmt_decode_group raw raw_size dec size).1 = Err OutputOverrun
  \/ (pmt_decode_group raw raw_size dec size).1 = Err SizeMismatch
  \/ (pmt_decode_group raw raw_size dec size).1 = Undef.
Proof.
  rewrite pmt_decode_group_run.
  destruct (decode_run raw raw_size size (mk_dstate 0 0 dec)) as [s r] eqn:Hrun.
  apply decode_run_inv in Hrun as [_ Hr]. destruct r as [[]|e| |]; cbn [fst bind].
  - unfold decode_finish. destruct (Z.eqb_spec (dst s) size) as [->|]; cbn [negb]; auto.
  - destruct Hr as [Hlt Hstep]. apply decode_step_err in Hstep as ->; auto.
  - auto.
  - done.
Qed.

(** ** Well-formed files *)

(** Decoding the encoding of opcodes whose outputs fill the capacity. *)
Lemma pmt_decode_group_fits ops rest dec size :
  Forall opcode_ok ops ->
  size <= Z.of_nat (length dec) ->
  Z.of_nat (length (ops ≫= opcode_output)) = size ->
  pmt_decode_group (encode ops ++ rest) (Z.of_nat (length (encode ops))) dec size
  = (Ok size, (ops ≫= opcode_output) ++ drop (length (ops ≫= opcode_output)) dec).
Proof.
  intros Hok Hsize Hout. rewrite pmt_decode_group_run.
  rewrite (decode_run_opcodes rest dec size Hsize ops [] []
             (mk_dstate 0 0 dec) (encode ops ++ rest) (Z.of_nat (length (encode ops))))
    by (done || (simpl; rewrite Z.sub_0_r; apply ends_in_last_opcode_encode)).
  rewrite (spec_decode_fits size ops []) by (cbn [app]; lia).
  cbn [app]. by destruct (Z.eqb_spec (Z.of_nat (length (ops ≫= opcode_output))) size).
Qed.

Lemma le16_le_bytes n tail :
  0 <= n < 65536 -> le16 (take 2 (le_bytes 2 n ++ tail)) = n.
Proof.
  intros Hn. cbn [le_bytes app take]. unfold le16. cbn [lookup_total list_lookup_total].
  rewrite !u8_small by lia. lia.
Qed.

(** Reading a group that is there and fits. *)
Lemma pmt_read_group_bytes ops tail raw :
  Z.of_nat (length (encode ops)) <= PMT_DECODED_GROUP_BYTES ->
  Z.of_nat (length raw) = PMT_DECODED_GROUP_BYTES ->
  pmt_read_group (pmt_group_bytes ops ++ tail) raw PMT_DECODED_GROUP_BYTES
  = (Ok (Z.of_nat (length (encode ops))), tail,
     encode ops ++ drop (length (encode ops)) raw).
Proof.
  intros Hfit Hraw. unfold pmt_group_bytes. rewrite <- app_assoc.
  destruct (pmt_read_group_spec
              (le_bytes 2 (Z.of_nat (length (encode ops))) ++ encode ops ++ tail)
              raw PMT_DECODED_GROUP_BYTES) as (_ & _ & _ & Hok); [lia|].
  assert (PMT_DECODED_GROUP_BYTES < 65536) as Hmax by (format_constants; lia).
  rewrite le16_le_bytes in Hok by lia.
  change (drop 2 (le_bytes 2 (Z.of_nat (length (encode ops))) ++ encode ops ++ tail))
    with (encode ops ++ tail) in Hok.
  destruct Hok as [-> _].
  - cbn [le_bytes app length]. lia.
  - done.
  - rewrite length_app. lia.
  - rewrite Nat2Z.id. by rewrite drop_app_length, take_app_length.
Qed.

Lemma decoded_groups_well_formed groups : forall footer raw dec,
  Forall group_ok groups ->
  Z.of_nat (length raw) = PMT_DECODED_GROUP_BYTES ->
  Z.of_nat (length dec) = PMT_DECODED_GROUP_BYTES ->
  decoded_groups (length groups) (pmt_file_bytes groups footer) raw dec
  = Ok ((fun ops => ops ≫= opcode_output) <$> groups, footer).
Proof.
  induction groups as [|ops groups IH]; intros footer raw dec Hok Hraw Hdec; [done|].
  apply Forall_cons in Hok as [(Hops & Hfit & Hout) Hok].
  cbn [length decoded_groups]. unfold pmt_file_bytes. rewrite bind_cons, <- app_assoc.
  rewrite pmt_read_group_bytes by done. cbn [bind].
  rewrite pmt_decode_group_fits by (done || lia). cbn [bind].
  rewrite (drop_ge dec), app_nil_r by lia.
  change ((groups ≫= pmt_group_bytes) ++ footer) with (pmt_file_bytes groups footer).
  rewrite IH; [done|done| |lia].
  rewrite length_app, length_drop. lia.
Qed.

(** How [pmt_to_bmp] ends on a file that can be opened, by what its six
    groups decode to. *)
Lemma pmt_to_bmp_cases file raw dec ct bmp bct :
  Z.of_nat (length raw) = PMT_DECODED_GROUP_BYTES ->
  Z.of_nat (length dec) = PMT_DECODED_GROUP_BYTES ->
  length ct = 48%nat ->
  BMP_PIXEL_ARRAY_SIZE <= Z.of_nat (length bmp) ->
  length bct = 64%nat ->
  match decoded_groups 6 file raw dec with
  | Ok (groups, rest) =>
      length groups = 6%nat
      /\ if Z.of_nat (length (drop 16 rest)) <? 48
         then (pmt_to_bmp (Some file) raw dec ct bmp bct).1.1 = Err TruncatedInput
         else pmt_to_bmp (Some file) raw dec ct bmp bct
              = (Ok BMP_PIXEL_ARRAY_SIZE, splice bmp 0 (groups ≫= reassemble),
                 tabulate 64 (color_byte (take 48 (drop 16 rest))))
  | r => (pmt_to_bmp (Some file) raw dec ct bmp bct).1.1 = fail_as r /\ r <> OutOfFuel
  end.
Proof.
  intros Hraw Hdec Hct Hbmp Hbct. unfold pmt_to_bmp.
  change (Z.to_nat PMT_GROUPS) with 6%nat.
  pose proof (groups_loop_spec 6 0 (mk_pstate file raw dec bmp 0)) as H.
  cbn [p_in p_raw_group_buf p_decoded_group_buf p_bmp_buf p_end_ptr] in H.
  specialize (H ltac:(lia) Hraw Hdec ltac:(format_constants; lia)).
  destruct (decoded_groups 6 file raw dec) as [[groups rest]|e| |].
  - destruct H as (Hn & _ & raw' & dec' & ->). split; [done|].
    cbn [p_in p_raw_group_buf p_decoded_group_buf p_bmp_buf p_end_ptr].
    change (Z.to_nat (0 * BMP_GROUP_BYTES)) with 0%nat.
    assert (length (take 48 (drop 16 rest)) <= 48)%nat as Hdata
      by (rewrite length_take; lia).
    rewrite memcpy_in_bounds by lia.
    rewrite Nat2Z.id, Z.add_0_l, Nat2Z.id, drop_0, (take_ge (take 48 (drop 16 rest))) by lia.
    change (take (Z.to_nat 0) ct) with (@nil Z). cbn [app].
    rewrite length_take.
    destruct (Z.ltb_spec (Z.of_nat (length (drop 16 rest))) 48) as [Hshort|Hfull].
    + by destruct (Z.eqb_spec (Z.of_nat (48 `min` length (drop 16 rest))) 48) as [|_]; [lia|].
    + destruct (Z.eqb_spec (Z.of_nat (48 `min` length (drop 16 rest))) 48) as [_|]; [|lia].
      cbn [negb]. rewrite Nat.min_l by lia.
      replace (drop 48 ct) with (@nil Z) by (symmetry; apply drop_ge; lia).
      rewrite app_nil_r.
      rewrite pmt_to_bmp_color_table_spec by (rewrite ?length_take; lia).
      assert (length (tabulate 64 (color_byte (take 48 (drop 16 rest)))) = 64%nat) as Hlen
        by (rewrite length_tabulate; lia).
      assert (splice bct 0 (tabulate 64 (color_byte (take 48 (drop 16 rest))))
              = tabulate 64 (color_byte (take 48 (drop 16 rest)))) as ->.
      { unfold splice. rewrite take_0, (drop_ge bct) by (rewrite Hlen; lia).
        cbn [app]. apply app_nil_r. }
      reflexivity.
  - destruct (groups_loop 6 0 (mk_pstate file raw dec bmp 0)) as [s' r'].
    cbn [snd] in H. by destruct H as [-> _].
  - destruct (groups_loop 6 0 (mk_pstate file raw dec bmp 0)) as [s' r'].
    cbn [snd] in H. by destruct H as [-> _].
  - by destruct H as [_ H].
Qed.

(** X4.  [pmt_to_bmp] accepts every well-formed file: six groups, each the
    2-byte little-endian length of its opcode bytes followed by them, each
    of at most 62160 opcode bytes and decoding to exactly 62160 bytes, then
    16 reserved bytes and the 48 colour bytes (anything may follow).  It
    returns the end of the pixel array, whose first 372960 bytes are the
    reassembled groups in order, and the colour table made of the 48 colour
    bytes.  Neither depends on what the scratch arrays or the output
    buffers held before. *)
Theorem pmt_to_bmp_accepts (groups : list (list opcode))
    (reserved colors trailing raw dec ct bmp bct : list Z) :
  length groups = 6%nat -> Forall group_ok groups ->
  length reserved = 16%nat -> length colors = 48%nat ->
  Z.of_nat (length raw) = PMT_DECODED_GROUP_BYTES ->
  Z.of_nat (length dec) = PMT_DECODED_GROUP_BYTES ->
  length ct = 48%nat ->
  BMP_PIXEL_ARRAY_SIZE <= Z.of_nat (length bmp) ->
  length bct = 64%nat ->
  pmt_to_bmp (Some (pmt_file_bytes groups (reserved ++ colors ++ trailing)))
    raw dec ct bmp bct
  = (Ok BMP_PIXEL_ARRAY_SIZE,
     splice bmp 0 (groups ≫= (fun ops => reassemble (ops ≫= opcode_output))),
     tabulate 64 (color_byte colors)).
Proof.
  intros Hsix Hgroups Hreserved Hcolors Hraw Hdec Hct Hbmp Hbct.
  pose proof (pmt_to_bmp_cases
    (pmt_file_bytes groups (reserved ++ colors ++ trailing)) raw dec ct bmp bct
    Hraw Hdec Hct Hbmp Hbct) as H.
  pose proof (decoded_groups_well_formed groups (reserved ++ colors ++ trailing)
                raw dec Hgroups Hraw Hdec) as Hdecoded.
  rewrite Hsix in Hdecoded. rewrite Hdecoded in H.
  destruct H as [_ H].
  rewrite drop_app_length' in H by done.
  destruct (Z.ltb_spec (Z.of_nat (length (colors ++ trailing))) 48) as [Hshort|_].
  { rewrite length_app in Hshort. lia. }
  rewrite H, take_app_length' by done. by rewrite list_fmap_bind.
Qed.

Lemma pmt_to_bmp_accepts_witness :
  let group := replicate 489 (Run 127 17) ++ [Literal (replicate 57 3)] in
  let z n := replicate (Z.to_nat n) 0 in
  pmt_to_bmp (Some (pmt_file_bytes (replicate 6 group)
                      (replicate 16 0 ++ replicate 48 63 ++ [1; 2; 3])))
    (z 62160) (z 62160) (z 48) (z 372960) (z 64)
  = (Ok BMP_PIXEL_ARRAY_SIZE,
     splice (z 372960) 0
       (replicate 6 group ≫= (fun ops => reassemble (ops ≫= opcode_output))),
     tabulate 64 (color_byte (replicate 48 63))).
Proof.
  intros group z.
  apply (pmt_to_bmp_accepts (replicate 6 group) (replicate 16 0) (replicate 48 63) [1; 2; 3]
           (z 62160) (z 62160) (z 48) (z 372960) (z 64)).
  - reflexivity.
  - apply Forall_replicate. split; [|split].
    + apply Forall_app. split; [apply Forall_replicate; cbn; lia|].
      repeat constructor. vm_compute. discriminate.
    + vm_compute. discriminate.
    + vm_compute. reflexivity.
  - reflexivity.
  - reflexivity.
  - unfold z. rewrite length_replicate. vm_compute. reflexivity.
  - unfold z. rewrite length_replicate. vm_compute. reflexivity.
  - reflexivity.
  - unfold z. rewrite length_replicate. vm_compute. discriminate.
  - reflexivity.
Defined.

(** ** The output file *)

Lemma fmap_u8_tabulate n f :
  (forall i, 0 <= f i < 256) -> u8 <$> tabulate n f = tabulate n f.
Proof.
  intros Hf. unfold tabulate. rewrite <- list_fmap_compose.
  apply list_fmap_ext. intros _ i _. apply u8_small, Hf.
Qed.

Lemma packed_byte_range pmt row k : 0 <= packed_byte pmt row k < 256.
Proof.
  unfold packed_byte.
  destruct (pack_nibbles _ _ (pixel_value_range pmt row (2 * k))
              (pixel_value_range pmt row (2 * k + 1))) as [<- _].
  apply u8_range.
Qed.

Lemma color_byte_range t j : 0 <= color_byte t j < 256.
Proof. unfold color_byte. case_match; [lia|apply u8_range]. Qed.

Lemma fmap_u8_reassembled groups :
  u8 <$> (groups ≫= reassemble) = groups ≫= reassemble.
Proof.
  induction groups as [|g groups IH]; [done|].
  rewrite bind_cons, fmap_app, IH. unfold reassemble at 1 3.
  by rewrite fmap_u8_tabulate by (intros i; apply packed_byte_range).
Qed.

(** What [main] does once the six groups are decoded and the colour bytes
    are there. *)
Lemma main_success argc file raw dec ct pix tab groups rest :
  3 <= argc ->
  Z.of_nat (length raw) = PMT_DECODED_GROUP_BYTES ->
  Z.of_nat (length dec) = PMT_DECODED_GROUP_BYTES ->
  length ct = 48%nat ->
  Z.of_nat (length pix) = BMP_PIXEL_ARRAY_SIZE ->
  length tab = 64%nat ->
  decoded_groups 6 file raw dec = Ok (groups, rest) ->
  48 <= Z.of_nat (length (drop 16 rest)) ->
  main argc (Some file) true raw dec ct pix tab
  = (Ok 0,
     Some (bmp_file_header_bytes bmp_file_header
           ++ bmp_info_header_bytes bmp_info_header
           ++ tabulate 64 (color_byte (take 48 (drop 16 rest)))
           ++ (groups ≫= reassemble)))
  /\ Z.of_nat (length (groups ≫= reassemble)) = BMP_PIXEL_ARRAY_SIZE.
Proof.
  intros Hargc Hraw Hdec Hct Hpix Htab Hgroups Hcolors.
  pose proof (pmt_to_bmp_cases file raw dec ct pix tab Hraw Hdec Hct ltac:(lia) Htab) as H.
  rewrite Hgroups in H. destruct H as [Hsix H].
  destruct (Z.ltb_spec (Z.of_nat (length (drop 16 rest))) 48) as [|_]; [lia|].
  pose proof (length_bind_reassemble groups) as Hlen. rewrite Hsix in Hlen.
  assert (Z.of_nat (length (groups ≫= reassemble)) = BMP_PIXEL_ARRAY_SIZE) as Hlen'
    by (rewrite Hlen; format_constants; lia).
  split; [|done]. unfold main.
  destruct (Z.ltb_spec argc 3); [lia|]. rewrite H.
  rewrite Z.sub_0_r, Z.eqb_refl. cbn [negb].
  unfold fwrite_bytes, sizeof_bmp_color_table_t.
  rewrite length_tabulate.
  change ((0 <=? 16 * 4) && (16 * 4 <=? Z.of_nat (Z.to_nat 64))) with true. cbn iota.
  rewrite (take_ge (tabulate 64 _)) by (rewrite length_tabulate; lia).
  rewrite fmap_u8_tabulate by apply color_byte_range.
  assert (splice pix 0 (groups ≫= reassemble) = groups ≫= reassemble) as ->.
  { unfold splice. rewrite take_0, (drop_ge pix), app_nil_r by lia. done. }
  destruct (Z.leb_spec 0 BMP_PIXEL_ARRAY_SIZE); [|format_constants; lia].
  destruct (Z.leb_spec BMP_PIXEL_ARRAY_SIZE (Z.of_nat (length (groups ≫= reassemble))));
    [|lia].
  cbn [andb]. rewrite (take_ge (groups ≫= reassemble)) by lia.
  by rewrite fmap_u8_reassembled.
Qed.

(** X5.  When the six groups of the input decode and the colour bytes are
    there, [main] (with both file arguments, and an output it can open)
    exits with status 0 and writes one file: the 14-byte file header, the
    40-byte info header, the 64-byte colour table and the 372960 pixel
    bytes, 373078 bytes in all.  The header describes the file it is in: the
    magic is "BM", the size field is the length of the file, the offset
    field is 118 and the pixel bytes start there, the width is 840, the
    height is -888 as a 32-bit value, and the image is 4 bits per pixel with
    16 colours. *)
Theorem main_writes_bmp (argc : Z) (file raw dec ct pix tab : list Z)
    (groups : list (list Z)) (rest : list Z) :
  3 <= argc ->
  Z.of_nat (length raw) = PMT_DECODED_GROUP_BYTES ->
  Z.of_nat (length dec) = PMT_DECODED_GROUP_BYTES ->
  length ct = 48%nat ->
  Z.of_nat (length pix) = BMP_PIXEL_ARRAY_SIZE ->
  length tab = 64%nat ->
  decoded_groups 6 file raw dec = Ok (groups, rest) ->
  48 <= Z.of_nat (length (drop 16 rest)) ->
  exists out,
    main argc (Some file) true raw dec ct pix tab = (Ok 0, Some out)
    /\ out = bmp_file_header_bytes bmp_file_header
             ++ bmp_info_header_bytes bmp_info_header
             ++ tabulate 64 (color_byte (take 48 (drop 16 rest)))
             ++ (groups ≫= reassemble)
    /\ Z.of_nat (length out) = 373078
    /\ take 2 out = [66; 77]
    /\ le_value (take 4 (drop 2 out)) = Z.of_nat (length out)
    /\ le_value (take 4 (drop 10 out)) = 118
    /\ drop 118 out = groups ≫= reassemble
    /\ le_value (take 4 (drop 18 out)) = 840
    /\ le_value (take 4 (drop 22 out)) = 2 ^ 32 - 888
    /\ le_value (take 2 (drop 28 out)) = 4
    /\ le_value (take 4 (drop 46 out)) = 16
    /\ Z.of_nat (length (drop 118 out)) = 888 * (840 * 4 / 8).
Proof.
  intros Hargc Hraw Hdec Hct Hpix Htab Hgroups Hcolors.
  destruct (main_success argc file raw dec ct pix tab groups rest) as [Hmain Hlen];
    try done.
  eexists. split; [exact Hmain|]. split; [reflexivity|].
  assert (Z.of_nat (length (groups ≫= reassemble)) = 372960) as Hlen'
    by (rewrite Hlen; reflexivity).
  assert (length (bmp_file_header_bytes bmp_file_header
                  ++ bmp_info_header_bytes bmp_info_header
                  ++ tabulate 64 (color_byte (take 48 (drop 16 rest)))) = 118%nat) as Hhead.
  { rewrite !length_app, length_tabulate. reflexivity. }
  assert (Z.of_nat (length (bmp_file_header_bytes bmp_file_header
             ++ bmp_info_header_bytes bmp_info_header
             ++ tabulate 64 (color_byte (take 48 (drop 16 rest)))
             ++ (groups ≫= reassemble))) = 373078) as Hall.
  { rewrite !app_assoc, length_app, <- !app_assoc, Hhead. lia. }
  assert (drop 118 (bmp_file_header_bytes bmp_file_header
             ++ bmp_info_header_bytes bmp_info_header
             ++ tabulate 64 (color_byte (take 48 (drop 16 rest)))
             ++ (groups ≫= reassemble)) = groups ≫= reassemble) as Hdrop.
  { rewrite !app_assoc, drop_app_length'; [done|]. by rewrite <- !app_assoc. }
  rewrite Hall, Hdrop, Hlen'.
  repeat split; reflexivity.
Qed.

Lemma main_writes_bmp_witness :
  let group := replicate 489 (Run 127 17) ++ [Literal (replicate 57 3)] in
  let z n := replicate (Z.to_nat n) 0 in
  let file := pmt_file_bytes (replicate 6 group) (replicate 16 0 ++ replicate 48 63) in
  let groups := (fun ops => ops ≫= opcode_output) <$> replicate 6 group in
  let rest := replicate 16 0 ++ replicate 48 63 in
  exists out,
    main 3 (Some file) true (z 62160) (z 62160) (z 48) (z 372960) (z 64) = (Ok 0, Some out)
    /\ out = bmp_file_header_bytes bmp_file_header
             ++ bmp_info_header_bytes bmp_info_header
             ++ tabulate 64 (color_byte (take 48 (drop 16 rest)))
             ++ (groups ≫= reassemble)
    /\ Z.of_nat (length out) = 373078
    /\ take 2 out = [66; 77]
    /\ le_value (take 4 (drop 2 out)) = Z.of_nat (length out)
    /\ le_value (take 4 (drop 10 out)) = 118
    /\ drop 118 out = groups ≫= reassemble
    /\ le_value (take 4 (drop 18 out)) = 840
    /\ le_value (take 4 (drop 22 out)) = 2 ^ 32 - 888
    /\ le_value (take 2 (drop 28 out)) = 4
    /\ le_value (take 4 (drop 46 out)) = 16
    /\ Z.of_nat (length (drop 118 out)) = 888 * (840 * 4 / 8).
Proof.
  intros group z file groups rest.
  assert (Z.of_nat (length (z 62160)) = PMT_DECODED_GROUP_BYTES) as Hscratch
    by (unfold z; rewrite length_replicate; vm_compute; reflexivity).
  apply (main_writes_bmp 3 file (z 62160) (z 62160) (z 48) (z 372960) (z 64) groups rest).
  - lia.
  - exact Hscratch.
  - exact Hscratch.
  - reflexivity.
  - unfold z. rewrite length_replicate. vm_compute. reflexivity.
  - reflexivity.
  - apply (decoded_groups_well_formed (replicate 6 group) rest (z 62160) (z 62160));
      [|exact Hscratch|exact Hscratch].
    apply Forall_replicate. split; [|split].
    + apply Forall_app. split; [apply Forall_replicate; cbn; lia|].
      repeat constructor. vm_compute. discriminate.
    + vm_compute. discriminate.
    + vm_compute. reflexivity.
  - vm_compute. discriminate.
Defined.

(** X6.  [main] leaves no output file behind a failed conversion.  With
    fewer than two file arguments, an input that cannot be opened, a group
    that cannot be read or decoded, or fewer than 48 colour bytes behind the
    16 skipped ones, it exits with status 1 and opens no output file.
    Conversely, if it writes an output file at all, both file arguments were
    given, the six groups decoded and the colour bytes were there. *)
Theorem main_no_output_on_failure (argc : Z) (file : option (list Z)) (out_opens : bool)
    (raw dec ct pix tab : list Z) :
  Z.of_nat (length raw) = PMT_DECODED_GROUP_BYTES ->
  Z.of_nat (length dec) = PMT_DECODED_GROUP_BYTES ->
  length ct = 48%nat ->
  Z.of_nat (length pix) = BMP_PIXEL_ARRAY_SIZE ->
  length tab = 64%nat ->
  ((argc < 3
    \/ file = None
    \/ (exists bytes e, file = Some bytes /\ decoded_groups 6 bytes raw dec = Err e)
    \/ (exists bytes groups rest, file = Some bytes
          /\ decoded_groups 6 bytes raw dec = Ok (groups, rest)
          /\ Z.of_nat (length (drop 16 rest)) < 48)) ->
   main argc file out_opens raw dec ct pix tab = (Ok 1, None))
  /\ (forall out, (main argc file out_opens raw dec ct pix tab).2 = Some out ->
      3 <= argc /\ out_opens = true
      /\ exists bytes groups rest, file = Some bytes
           /\ decoded_groups 6 bytes raw dec = Ok (groups, rest)
           /\ 48 <= Z.of_nat (length (drop 16 rest))).
Proof.
  intros Hraw Hdec Hct Hpix Htab. unfold main.
  destruct (Z.ltb_spec argc 3) as [Hargc|Hargc]; [split; [done|intros out; done]|].
  destruct file as [bytes|]; [|split; [done|intros out; done]].
  pose proof (pmt_to_bmp_cases bytes raw dec ct pix tab Hraw Hdec Hct ltac:(lia) Htab) as H.
  destruct (pmt_to_bmp (Some bytes) raw dec ct pix tab) as [[r pixels] table].
  cbn [fst] in H.
  destruct (decoded_groups 6 bytes raw dec) as [[groups rest]|e| |] eqn:Hgroups.
  - destruct H as [_ H].
    destruct (Z.ltb_spec (Z.of_nat (length (drop 16 rest))) 48) as [Hshort|Hfull].
    + subst r. split; [done|intros out; done].
    + injection H as -> -> ->. rewrite Z.sub_0_r, Z.eqb_refl. cbn [negb]. split.
      * intros [?|[?|[(b & e & Hb & He)|(b & g & r & Hb & Hg & Hr)]]]; [lia|done| |].
        -- injection Hb as Hb. subst b. rewrite Hgroups in He. discriminate.
        -- injection Hb as Hb. subst b. rewrite Hgroups in Hg. injection Hg as <- <-. lia.
      * intros out Hout. destruct out_opens; [|done].
        split; [done|]. split; [done|]. by exists bytes, groups, rest.
  - destruct H as [-> _]. cbn [fail_as bind]. split; [done|intros out; done].
  - destruct H as [-> _]. cbn [fail_as bind]. split; [|intros out; done].
    intros [?|[?|[(b & e & Hb & He)|(b & g & r & Hb & Hg & Hr)]]]; [lia|done| |].
    + injection Hb as Hb. subst b. rewrite Hgroups in He. discriminate.
    + injection Hb as Hb. subst b. rewrite Hgroups in Hg. discriminate.
  - by destruct H as [_ H].
Qed.

Lemma main_no_output_on_failure_witness :
  let z n := replicate (Z.to_nat n) 0 in
  ((3 < 3
    \/ Some [5; 0; 130; 7] = None
    \/ (exists bytes e, Some [5; 0; 130; 7] = Some bytes
          /\ decoded_groups 6 bytes (z 62160) (z 62160) = Err e)
    \/ (exists bytes groups rest, Some [5; 0; 130; 7] = Some bytes
          /\ decoded_groups 6 bytes (z 62160) (z 62160) = Ok (groups, rest)
          /\ Z.of_nat (length (drop 16 rest)) < 48)) ->
   main 3 (Some [5; 0; 130; 7]) true (z 62160) (z 62160) (z 48) (z 372960) (z 64)
   = (Ok 1, None))
  /\ (forall out,
        (main 3 (Some [5; 0; 130; 7]) true (z 62160) (z 62160) (z 48) (z 372960) (z 64)).2
        = Some out ->
      3 <= 3 /\ true = true
      /\ exists bytes groups rest, Some [5; 0; 130; 7] = Some bytes
           /\ decoded_groups 6 bytes (z 62160) (z 62160) = Ok (groups, rest)
           /\ 48 <= Z.of_nat (length (drop 16 rest))).
Proof.
  intros z.
  apply (main_no_output_on_failure 3 (Some [5; 0; 130; 7]) true
           (z 62160) (z 62160) (z 48) (z 372960) (z 64)).
  - unfold z. rewrite length_replicate. vm_compute. reflexivity.
  - unfold z. rewrite length_replicate. vm_compute. reflexivity.
  - reflexivity.
  - unfold z. rewrite length_replicate. vm_compute. reflexivity.
  - reflexivity.
Defined.

(** ** What the conversion keeps *)

Lemma unpack_nibbles hi lo :
  0 <= hi < 16 -> 0 <= lo < 16 ->
  Z.shiftr (Z.lor (Z.shiftl hi 4) lo) 4 = hi /\ Z.land (Z.lor (Z.shiftl hi 4) lo) 15 = lo.
Proof.
  intros Hhi Hlo.
  pose proof (below_forallb
    (fun hi => forallb (fun lo =>
       (Z.shiftr (Z.lor (Z.shiftl hi 4) lo) 4 =? hi)
       && (Z.land (Z.lor (Z.shiftl hi 4) lo) 15 =? lo)) (seqZ 0 16))
    16 eq_refl hi Hhi) as H.
  cbv beta in H. pose proof (below_forallb _ 16 H lo Hlo) as H'.
  cbv beta in H'. apply andb_prop in H' as [H1 H2]. by split; apply Z.eqb_eq.
Qed.

Lemma nibble_packed_byte pmt row j :
  0 <= j -> nibble (packed_byte pmt row (j / 2)) j = pixel_value pmt row j.
Proof.
  intros Hj. unfold nibble, packed_byte.
  destruct (unpack_nibbles _ _ (pixel_value_range pmt row (2 * (j / 2)))
              (pixel_value_range pmt row (2 * (j / 2) + 1))) as [Hhi Hlo].
  destruct (Z.eqb_spec (j mod 2) 0).
  - rewrite Hhi. f_equal. lia.
  - rewrite Hlo. f_equal. lia.
Qed.

Lemma pixel_value_bit pmt row j p :
  0 <= p < 4 ->
  Z.testbit (pixel_value pmt row j) p
  = Z.testbit (u8 (pmt !!! Z.to_nat (row + (p * PMT_DECODED_ROW_PLANE_BYTES + j / 8))))
      (7 - j mod 8).
Proof.
  intros Hp. unfold pixel_value, plane_bit.
  assert (p = 0 \/ p = 1 \/ p = 2 \/ p = 3) as [-> | [-> | [-> | ->]]] by lia;
    repeat match goal with
      | |- context [Z.testbit (u8 ?x) ?i] => destruct (Z.testbit (u8 x) i)
      end; reflexivity.
Qed.

Lemma reassembled_byte pmt bmp0 gs row k :
  0 <= gs -> gs + BMP_GROUP_BYTES <= Z.of_nat (length bmp0) ->
  0 <= row < 148 -> 0 <= k < 420 ->
  splice bmp0 (Z.to_nat gs) (reassemble pmt) !! Z.to_nat (gs + row * 420 + k)
  = Some (packed_byte pmt (row * 420) k).
Proof.
  intros Hgs Hfit Hrow Hk.
  assert (length (reassemble pmt) = Z.to_nat BMP_GROUP_BYTES) as Hlen
    by apply length_tabulate.
  replace (Z.to_nat (gs + row * 420 + k))
    with (Z.to_nat gs + Z.to_nat (row * 420 + k))%nat by lia.
  rewrite lookup_splice_new by (rewrite ?Hlen; format_constants; lia).
  unfold reassemble. rewrite lookup_tabulate by (format_constants; lia).
  rewrite Z2Nat.id by lia.
  change BMP_ROW_BYTES with 420. change PMT_DECODED_ROW_BYTES with 420.
  by destruct (row_index row k) as [-> ->]; [lia..|].
Qed.

(** X7.  [convert_group_to_bmp] loses nothing: every bit of the 62160
    decoded bytes is found again in the output.  Bit [7 - j mod 8] of byte
    [j / 8] of plane [plane] of row [row] is bit [plane] of the nibble of
    pixel [j] of that row, the high nibble of output byte [j / 2] of the row
    for an even [j] and the low nibble for an odd one. *)
Theorem convert_group_to_bmp_keeps_bits (pmt bmp0 : list Z) (gs : Z) :
  PMT_DECODED_GROUP_BYTES <= Z.of_nat (length pmt) ->
  0 <= gs -> gs + BMP_GROUP_BYTES <= Z.of_nat (length bmp0) ->
  exists bmp1,
    convert_group_to_bmp pmt bmp0 gs = Ok (gs + BMP_GROUP_BYTES, bmp1)
    /\ forall row j plane, 0 <= row < 148 -> 0 <= j < 840 -> 0 <= plane < 4 ->
         Z.testbit (nibble (bmp1 !!! Z.to_nat (gs + row * 420 + j / 2)) j) plane
         = Z.testbit (u8 (pmt !!! Z.to_nat (row * 420 + plane * 105 + j / 8)))
             (7 - j mod 8).
Proof.
  intros Hpmt Hgs Hfit. exists (splice bmp0 (Z.to_nat gs) (reassemble pmt)).
  split; [by apply convert_group_to_bmp_spec|].
  intros row j plane Hrow Hj Hplane.
  rewrite (list_lookup_total_correct _ _ _
             (reassembled_byte pmt bmp0 gs row (j / 2) Hgs Hfit Hrow ltac:(lia))).
  rewrite nibble_packed_byte by lia. rewrite pixel_value_bit by done.
  do 3 f_equal. unfold PMT_DECODED_ROW_PLANE_BYTES. lia.
Qed.

Lemma convert_group_to_bmp_keeps_bits_witness :
  exists bmp1,
    convert_group_to_bmp (replicate (Z.to_nat 62160) 170) (replicate (Z.to_nat 62160) 0) 0
    = Ok (0 + BMP_GROUP_BYTES, bmp1)
    /\ forall row j plane, 0 <= row < 148 -> 0 <= j < 840 -> 0 <= plane < 4 ->
         Z.testbit (nibble (bmp1 !!! Z.to_nat (0 + row * 420 + j / 2)) j) plane
         = Z.testbit
             (u8 (replicate (Z.to_nat 62160) 170 !!! Z.to_nat (row * 420 + plane * 105 + j / 8)))
             (7 - j mod 8).
Proof.
  apply (convert_group_to_bmp_keeps_bits (replicate (Z.to_nat 62160) 170)
           (replicate (Z.to_nat 62160) 0) 0).
  - rewrite length_replicate. vm_compute. discriminate.
  - lia.
  - rewrite length_replicate. vm_compute. discriminate.
Defined.

Lemma unscale_channel x :
  0 <= x < 256 ->
  Z.shiftr (u8 (Z.shiftl x 2)) 2 = x mod 64 /\ Z.land (u8 (Z.shiftl x 2)) 3 = 0.
Proof.
  intros Hx.
  pose proof (below_forallb
    (fun x => (Z.shiftr (u8 (Z.shiftl x 2)) 2 =? x mod 64)
              && (Z.land (u8 (Z.shiftl x 2)) 3 =? 0)) 256 eq_refl x Hx) as H.
  cbv beta in H. apply andb_prop in H as [H1 H2]. by split; apply Z.eqb_eq.
Qed.

(** X8.  The colour table conversion can be undone for 6-bit input: every
    output channel shifted right by 2 is the input channel it came from
    (modulo 64 in general: the two high bits of an input byte are dropped),
    and its two low bits are 0.  All 64 output bytes are set, so the result
    does not depend on what the output table held before. *)
Theorem pmt_to_bmp_color_table_round_trip (pmt_color_table bmp_color_table : list Z) :
  length pmt_color_table = 48%nat -> length bmp_color_table = 64%nat ->
  exists t,
    pmt_to_bmp_color_table pmt_color_table bmp_color_table = Ok t
    /\ (forall other, length other = 64%nat ->
          pmt_to_bmp_color_table pmt_color_table other = Ok t)
    /\ (forall i c, 0 <= i < 16 -> 0 <= c < 3 ->
          exists x y, load pmt_color_table (i * 3 + (2 - c)) = Ok x
            /\ t !! Z.to_nat (i * 4 + c) = Some y
            /\ Z.shiftr y 2 = x mod 64
            /\ Z.land y 3 = 0
            /\ (x < 64 -> Z.shiftr y 2 = x)).
Proof.
  intros Hpmt Hbmp.
  assert (length (tabulate 64 (color_byte pmt_color_table)) = 64%nat) as Hlen
    by (rewrite length_tabulate; lia).
  assert (forall other, length other = 64%nat ->
    splice other 0 (tabulate 64 (color_byte pmt_color_table))
    = tabulate 64 (color_byte pmt_color_table)) as Hfull.
  { intros other Hother. unfold splice.
    rewrite take_0, (drop_ge other) by (rewrite Hlen; lia). cbn [app]. apply app_nil_r. }
  exists (tabulate 64 (color_byte pmt_color_table)).
  split; [|split].
  - rewrite pmt_to_bmp_color_table_spec by (done || lia). by rewrite Hfull.
  - intros other Hother. rewrite pmt_to_bmp_color_table_spec by (done || lia).
    by rewrite Hfull.
  - intros i c Hi Hc.
    exists (u8 (pmt_color_table !!! Z.to_nat (i * 3 + (2 - c)))),
      (color_byte pmt_color_table (i * 4 + c)).
    pose proof (u8_range (pmt_color_table !!! Z.to_nat (i * 3 + (2 - c)))) as Hx.
    assert (color_byte pmt_color_table (i * 4 + c)
            = u8 (Z.shiftl (u8 (pmt_color_table !!! Z.to_nat (i * 3 + (2 - c)))) 2)) as ->.
    { unfold color_byte. destruct (Z.eqb_spec ((i * 4 + c) mod 4) 3); [lia|].
      do 4 f_equal. lia. }
    destruct (unscale_channel _ Hx) as [Hshift Hlow].
    split; [apply load_total; lia|]. split.
    + rewrite lookup_tabulate by lia. rewrite Z2Nat.id by lia.
      unfold color_byte. destruct (Z.eqb_spec ((i * 4 + c) mod 4) 3); [lia|].
      do 5 f_equal. lia.
    + split; [done|]. split; [done|]. intros Hsix. rewrite Hshift.
      apply Z.mod_small. lia.
Qed.

Lemma pmt_to_bmp_color_table_round_trip_witness :
  exists t,
    pmt_to_bmp_color_table (replicate 48 63) (replicate 64 255) = Ok t
    /\ (forall other, length other = 64%nat ->
          pmt_to_bmp_color_table (replicate 48 63) other = Ok t)
    /\ (forall i c, 0 <= i < 16 -> 0 <= c < 3 ->
          exists x y, load (replicate 48 63) (i * 3 + (2 - c)) = Ok x
            /\ t !! Z.to_nat (i * 4 + c) = Some y
            /\ Z.shiftr y 2 = x mod 64
            /\ Z.land y 3 = 0
            /\ (x < 64 -> Z.shiftr y 2 = x)).
Proof.
  apply (pmt_to_bmp_color_table_round_trip (replicate 48 63) (replicate 64 255)); reflexivity.
Defined.

(** ** How much input a group needs *)

(** A pass writes at most 127 bytes for the 2 input bytes of a run, and
    fewer bytes than it consumes for a literal copy. *)
Lemma decoding_ratio raw raw_size size dec s :
  decoding raw raw_size size (mk_dstate 0 0 dec) s ->
  2 * dst s <= 127 * src s /\ src s <= Z.max 0 (raw_size + 127).
Proof.
  induction 1 as [|s s' _ IH Hlt Hstep]; [simpl; lia|].
  destruct (decode_step_inv _ _ _ _ _ Hstep) as (c & Hc & [Hrun|Hlit]).
  - destruct Hrun as (_ & _ & _ & _ & _ & -> & ->).
    destruct (load_inv _ _ _ Hc) as (_ & Hrange & _).
    pose proof (control_byte_run_length c Hrange). lia.
  - destruct Hlit as (Hbit & _ & Hcopy & -> & ->).
    destruct (load_inv _ _ _ Hc) as (_ & Hrange & _).
    pose proof (control_byte_literal c Hrange Hbit). lia.
Qed.

(** X9.  The scheme expands at most 127 bytes from 2: whenever
    [pmt_decode_group] succeeds, twice the decoded size is at most 127 times
    the declared input size plus the 127 bytes a last literal copy may take
    from behind the input.  A group meant to decode to 62160 bytes with
    fewer than 852 declared bytes is therefore always rejected. *)
Theorem pmt_decode_group_needs_input
    (raw : list Z) (raw_size : Z) (dec : list Z) (size n : Z) :
  (pmt_decode_group raw raw_size dec size).1 = Ok n ->
  2 * size <= 127 * Z.max 0 (raw_size + 127)
  /\ (size = PMT_DECODED_GROUP_BYTES -> 852 <= raw_size).
Proof.
  rewrite pmt_decode_group_run.
  destruct (decode_run raw raw_size size (mk_dstate 0 0 dec)) as [s r] eqn:Hrun.
  apply decode_run_inv in Hrun as [Hreach _].
  destruct (decoding_ratio _ _ _ _ _ Hreach) as [Hratio Hsrc].
  destruct r as [[]|e| |]; cbn [fst bind]; try done.
  unfold decode_finish. destruct (Z.eqb_spec (dst s) size) as [Hdst|]; [|done].
  intros _. split; [lia|]. format_constants. lia.
Qed.

Lemma pmt_decode_group_needs_input_witness :
  2 * 5 <= 127 * Z.max 0 (5 + 127) /\ (5 = PMT_DECODED_GROUP_BYTES -> 852 <= 5).
Proof.
  apply (pmt_decode_group_needs_input [131; 7; 2; 8; 9] 5 [0; 0; 0; 0; 0] 5 5).
  reflexivity.
Defined.

(** ** Truncated files *)

(** The group loop over the groups a file starts with. *)
Lemma groups_loop_prefix groups : forall n i s tail,
  Forall group_ok groups ->
  p_in s = pmt_file_bytes groups tail ->
  Z.of_nat (length (p_raw_group_buf s)) = PMT_DECODED_GROUP_BYTES ->
  Z.of_nat (length (p_decoded_group_buf s)) = PMT_DECODED_GROUP_BYTES ->
  0 <= i ->
  (i + Z.of_nat (length groups)) * BMP_GROUP_BYTES <= Z.of_nat (length (p_bmp_buf s)) ->
  exists raw' dec' end_ptr',
    Z.of_nat (length raw') = PMT_DECODED_GROUP_BYTES
    /\ Z.of_nat (length dec') = PMT_DECODED_GROUP_BYTES
    /\ groups_loop (length groups + n) i s
       = groups_loop n (i + Z.of_nat (length groups))
           (mk_pstate tail raw' dec'
              (splice (p_bmp_buf s) (Z.to_nat (i * BMP_GROUP_BYTES))
                 (groups ≫= (fun ops => reassemble (ops ≫= opcode_output))))
              end_ptr').
Proof.
  induction groups as [|ops groups IH]; intros n i s tail Hok Hin Hraw Hdec Hi Hbmp.
  - exists (p_raw_group_buf s), (p_decoded_group_buf s), (p_end_ptr s).
    split; [done|]. split; [done|]. cbn [length Nat.add].
    change ([] ≫= (fun ops : list opcode => reassemble (ops ≫= opcode_output)))
      with (@nil Z).
    rewrite splice_nil, Z.add_0_r. destruct s. cbn in Hin. by subst.
  - apply Forall_cons in Hok as [(Hops & Hfit & Hout) Hok].
    cbn [length Nat.add groups_loop]. unfold process_group.
    rewrite Hin. unfold pmt_file_bytes. rewrite bind_cons, <- app_assoc.
    rewrite pmt_read_group_bytes by done.
    rewrite pmt_decode_group_fits by (done || lia).
    rewrite (drop_ge (p_decoded_group_buf s)), app_nil_r by lia.
    assert (length (reassemble (ops ≫= opcode_output)) = Z.to_nat BMP_GROUP_BYTES) as Hgroup
      by apply length_tabulate.
    rewrite length_cons in Hbmp.
    rewrite convert_group_to_bmp_spec by (format_constants; lia).
    destruct (IH n (i + 1)
      (mk_pstate ((groups ≫= pmt_group_bytes) ++ tail)
         (encode ops ++ drop (length (encode ops)) (p_raw_group_buf s))
         (ops ≫= opcode_output)
         (splice (p_bmp_buf s) (Z.to_nat (i * BMP_GROUP_BYTES))
            (reassemble (ops ≫= opcode_output)))
         (i * BMP_GROUP_BYTES + BMP_GROUP_BYTES)) tail)
      as (raw' & dec' & end_ptr' & Hraw' & Hdec' & ->).
    + exact Hok.
    + reflexivity.
    + cbn [p_raw_group_buf]. rewrite length_app, length_drop. lia.
    + cbn [p_decoded_group_buf]. lia.
    + lia.
    + cbn [p_bmp_buf]. rewrite length_splice by (rewrite Hgroup; format_constants; lia). lia.
    + exists raw', dec', end_ptr'. split; [exact Hraw'|]. split; [exact Hdec'|].
      cbn [p_bmp_buf]. f_equal; [lia|]. f_equal.
      replace (Z.to_nat ((i + 1) * BMP_GROUP_BYTES))
        with (Z.to_nat (i * BMP_GROUP_BYTES)
              + length (reassemble (ops ≫= opcode_output)))%nat
        by (rewrite Hgroup; format_constants; lia).
      rewrite splice_splice by (rewrite Hgroup; format_constants; lia).
      by rewrite bind_cons.
Qed.

(** X10.  A file that ends after fewer than six complete groups (at most
    one stray byte behind them) makes [pmt_to_bmp] fail with the truncated
    input.  The failure is not all-or-nothing for the pixel array: the
    slices of the groups that were decoded stay overwritten; the colour
    table is untouched. *)
Theorem pmt_to_bmp_truncated_file (groups : list (list opcode))
    (tail raw dec ct bmp bct : list Z) :
  (length groups < 6)%nat -> Forall group_ok groups -> (length tail < 2)%nat ->
  Z.of_nat (length raw) = PMT_DECODED_GROUP_BYTES ->
  Z.of_nat (length dec) = PMT_DECODED_GROUP_BYTES ->
  BMP_PIXEL_ARRAY_SIZE <= Z.of_nat (length bmp) ->
  pmt_to_bmp (Some (pmt_file_bytes groups tail)) raw dec ct bmp bct
  = (Err TruncatedInput,
     splice bmp 0 (groups ≫= (fun ops => reassemble (ops ≫= opcode_output))),
     bct).
Proof.
  intros Hfew Hok Htail Hraw Hdec Hbmp. unfold pmt_to_bmp.
  replace (Z.to_nat PMT_GROUPS) with (length groups + S (5 - length groups))%nat
    by (change (Z.to_nat PMT_GROUPS) with 6%nat; lia).
  destruct (groups_loop_prefix groups (S (5 - length groups)) 0
              (mk_pstate (pmt_file_bytes groups tail) raw dec bmp 0) tail)
    as (raw' & dec' & end_ptr' & Hraw' & Hdec' & ->);
    [exact Hok|reflexivity|exact Hraw|exact Hdec|lia| |].
  { cbn [p_bmp_buf]. format_constants. lia. }
  cbn [groups_loop p_bmp_buf]. unfold process_group.
  cbn [p_in p_raw_group_buf p_decoded_group_buf p_bmp_buf p_end_ptr].
  destruct (pmt_read_group_spec tail raw' PMT_DECODED_GROUP_BYTES) as [Hshort _]; [lia|].
  rewrite Hshort by exact Htail. reflexivity.
Qed.

Lemma pmt_to_bmp_truncated_file_witness :
  let group := replicate 489 (Run 127 17) ++ [Literal (replicate 57 3)] in
  let z n := replicate (Z.to_nat n) 0 in
  pmt_to_bmp (Some (pmt_file_bytes [group; group] [9])) (z 62160) (z 62160) (z 48)
    (z 372960) (z 64)
  = (Err TruncatedInput,
     splice (z 372960) 0
       ([group; group] ≫= (fun ops => reassemble (ops ≫= opcode_output))),
     z 64).
Proof.
  intros group z.
  apply (pmt_to_bmp_truncated_file [group; group] [9] (z 62160) (z 62160) (z 48)
           (z 372960) (z 64)).
  - cbn [length]. lia.
  - assert (group_ok group) as Hgroup.
    { split; [|split].
      - apply Forall_app. split; [apply Forall_replicate; cbn; lia|].
        repeat constructor. vm_compute. discriminate.
      - vm_compute. discriminate.
      - vm_compute. reflexivity. }
    constructor; [exact Hgroup|]. constructor; [exact Hgroup|]. constructor.
  - cbn [length]. lia.
  - unfold z. rewrite length_replicate. vm_compute. reflexivity.
  - unfold z. rewrite length_replicate. vm_compute. reflexivity.
  - unfold z. rewrite length_replicate. vm_compute. discriminate.
Defined.
